(** * LeadTube: the scraping core of [leadscraper/scraper.py]

    A shallow embedding of the key-rotating API client, the email extractor,
    the checkpoint store, the keyword processor and the scan orchestrator,
    followed by the properties established about them.

    Conventions.
    - Python exceptions are values of [exn]; a computation that may raise
      returns a [result].
    - Code that mutates objects or talks to the outside world is written in a
      state-and-error monad [M S]; the state survives a raised exception, as
      the Python heap does.
    - Text is [string] (a sequence of bytes; a non-ASCII character is its
      UTF-8 bytes, none of which belongs to any character class used here).
    - [time.sleep] is recorded in milliseconds. *)

From Stdlib Require Import ZArith Ascii String.
From stdpp Require Import gmap strings list fin_maps pretty sorting.

#[local] Set Warnings "-clear-no-such-hyp".

Open Scope string_scope.
Open Scope Z_scope.

(** ** Exceptions and results *)

Inductive exn :=
| HttpError (status : option Z)   (* googleapiclient.errors.HttpError; [he.resp.status] *)
| GSpreadException (msg : string)
| FileNotFoundError
| JSONDecodeError
| OSError (msg : string)          (* an OSError other than FileNotFoundError *)
| ValueError (msg : string)
| KeyError (key : string)
| IndexError
| TypeError (msg : string)
| Exception (msg : string).       (* any other subclass of Exception *)

Inductive result (A : Type) :=
| Ok (a : A)
| Raise (e : exn).
Arguments Ok {A} a.
Arguments Raise {A} e.

(** [str(e)], as interpolated by the f-strings of the log lines. *)
Definition py_None : string := "None".

Definition status_str (status : option Z) : string :=
  match status with Some z => pretty z | None => py_None end.

Definition exn_str (e : exn) : string :=
  match e with
  | HttpError s => "<HttpError " +:+ status_str s +:+ ">"
  | GSpreadException m | OSError m | ValueError m | TypeError m | Exception m => m
  | FileNotFoundError => "[Errno 2] No such file or directory"
  | JSONDecodeError => "Expecting value"
  | KeyError k => "'" +:+ k +:+ "'"
  | IndexError => "list index out of range"
  end.

(** ** The state-and-error monad *)

Definition M (S A : Type) : Type := S -> result A * S.

Definition ret {S A} (a : A) : M S A := fun s => (Ok a, s).

Definition raise {S A} (e : exn) : M S A := fun s => (Raise e, s).

Definition bind {S A B} (m : M S A) (k : A -> M S B) : M S B :=
  fun s => match m s with
           | (Ok a, s') => k a s'
           | (Raise e, s') => (Raise e, s')
           end.

Definition get {S} : M S S := fun s => (Ok s, s).

Definition modify {S} (f : S -> S) : M S unit := fun s => (Ok tt, f s).

(** [try: m except Exception as e: ...] with the outcome handed back. *)
Definition attempt {S A} (m : M S A) : M S (result A) :=
  fun s => match m s with (r, s') => (Ok r, s') end.

Declare Scope monad_scope.
Delimit Scope monad_scope with monad.
Notation "'let*' x ':=' m 'in' k" := (bind m (fun x => k))
  (at level 10, x pattern, m at level 100, k at level 200) : monad_scope.
Notation "m ';;' k" := (bind m (fun _ => k))
  (at level 100, k at level 200, right associativity) : monad_scope.
Open Scope monad_scope.

(** ** config.py *)

Module config.
Definition MAX_RESULTS_PER_SEARCH : Z := 50.
Definition MAX_VALID_PER_KEYWORD : Z := 100.
Definition ALLOWED_COUNTRIES : list string :=
  [ "US"; "CA"; "GB"; "AU";
    "DZ";"AO";"BJ";"BW";"BF";"BI";"CM";"CV";"CF";"TD";"KM";"CG";"CD";"DJ";"EG";
    "GQ";"ER";"SZ";"ET";"GA";"GM";"GH";"GN";"GW";"KE";"LS";"LR";"LY";"MG";"MW";
    "ML";"MR";"MU";"MA";"MZ";"NA";"NE";"NG";"RW";"ST";"SN";"SC";"SL";"SO";"ZA";
    "SS";"SD";"TZ";"TG";"TN";"UG";"ZM";"ZW" ].
Definition THREAD_WORKERS : Z := 5.
End config.

(** ** The outside world *)

(** What the checkpoint file gives when it is read. *)
Record Checkpoint := {
  positions : option (gmap string (option string));
  keywords_done : option (gmap string Z);
  processed_channels : option (list string)
}.

Inductive CheckpointFile :=
| Missing                      (* [os.path.exists] is False *)
| Holds (c : Checkpoint)       (* [json.load] returns this object *)
| Fails (e : exn).             (* [open] or [json.load] raises [e] *)

Record Env := {
  log : list string;                        (* lines given to [log_callback], oldest first *)
  slept : list N;                           (* [time.sleep] calls, in milliseconds *)
  api_calls : nat;                          (* remote requests executed so far *)
  polls : nat;                              (* [should_stop] polls so far *)
  sheets_fault : option exn;                (* what connecting to the spreadsheet raises, if anything *)
  worksheet : option (list (list string));  (* the rows of the worksheet, when it exists *)
  checkpoint_file : CheckpointFile;
  existing_channels : gset string;          (* the dedup set owned by [run_scraper] *)
  checkpoint : Checkpoint                   (* the dict returned by [load_checkpoint] *)
}.

Definition IO (A : Type) : Type := M Env A.

Definition log_callback (line : string) : IO unit :=
  modify (fun e => {| log := log e ++ [line]; slept := slept e; api_calls := api_calls e;
                      polls := polls e; sheets_fault := sheets_fault e; worksheet := worksheet e;
                      checkpoint_file := checkpoint_file e;
                      existing_channels := existing_channels e; checkpoint := checkpoint e |}).

Definition sleep (ms : N) : IO unit :=
  modify (fun e => {| log := log e; slept := slept e ++ [ms]; api_calls := api_calls e;
                      polls := polls e; sheets_fault := sheets_fault e; worksheet := worksheet e;
                      checkpoint_file := checkpoint_file e;
                      existing_channels := existing_channels e; checkpoint := checkpoint e |}).

Definition set_api_calls (n : nat) (e : Env) : Env :=
  {| log := log e; slept := slept e; api_calls := n;
     polls := polls e; sheets_fault := sheets_fault e; worksheet := worksheet e;
     checkpoint_file := checkpoint_file e;
     existing_channels := existing_channels e; checkpoint := checkpoint e |}.

Definition set_polls (n : nat) (e : Env) : Env :=
  {| log := log e; slept := slept e; api_calls := api_calls e;
     polls := n; sheets_fault := sheets_fault e; worksheet := worksheet e;
     checkpoint_file := checkpoint_file e;
     existing_channels := existing_channels e; checkpoint := checkpoint e |}.

Definition set_worksheet (ws : option (list (list string))) (e : Env) : Env :=
  {| log := log e; slept := slept e; api_calls := api_calls e;
     polls := polls e; sheets_fault := sheets_fault e; worksheet := ws;
     checkpoint_file := checkpoint_file e;
     existing_channels := existing_channels e; checkpoint := checkpoint e |}.

Definition set_checkpoint_file (f : CheckpointFile) (e : Env) : Env :=
  {| log := log e; slept := slept e; api_calls := api_calls e;
     polls := polls e; sheets_fault := sheets_fault e; worksheet := worksheet e;
     checkpoint_file := f;
     existing_channels := existing_channels e; checkpoint := checkpoint e |}.

Definition set_existing_channels (x : gset string) (e : Env) : Env :=
  {| log := log e; slept := slept e; api_calls := api_calls e;
     polls := polls e; sheets_fault := sheets_fault e; worksheet := worksheet e;
     checkpoint_file := checkpoint_file e;
     existing_channels := x; checkpoint := checkpoint e |}.

Definition set_checkpoint (c : Checkpoint) (e : Env) : Env :=
  {| log := log e; slept := slept e; api_calls := api_calls e;
     polls := polls e; sheets_fault := sheets_fault e; worksheet := worksheet e;
     checkpoint_file := checkpoint_file e;
     existing_channels := existing_channels e; checkpoint := c |}.

(** ** YouTubeClientManager: round-robin keys, retry and rotation *)

Record YouTubeClientManager := {
  api_keys : list string;
  current_key_index : nat
}.

(** [YouTubeClientManager.__init__] *)
Definition new_manager (keys : list string) : result YouTubeClientManager :=
  match keys with
  | [] => Raise (ValueError "No YouTube API keys provided.")
  | _ => Ok {| api_keys := keys; current_key_index := 0 |}
  end.

(** The manager, the clients that [build] has produced (each is identified by
    its developer key, oldest first) and everything else. A request handed to
    [api_request] only sees the client and the outside world. *)
Record State := {
  yt_manager : YouTubeClientManager;
  clients : list string;
  env : Env
}.

Definition Run (A : Type) : Type := M State A.

Definition lift {A} (m : IO A) : Run A :=
  fun s => match m (env s) with
           | (r, e) => (r, {| yt_manager := yt_manager s; clients := clients s; env := e |})
           end.

Definition get_client : Run string :=
  fun s =>
    let mgr := yt_manager s in
    match api_keys mgr !! current_key_index mgr with
    | None => (Raise IndexError, s)
    | Some key =>
        (Ok key,
         {| yt_manager := {| api_keys := api_keys mgr;
                             current_key_index :=
                               (current_key_index mgr + 1) `mod` length (api_keys mgr) |};
            clients := clients s ++ [key];
            env := env s |})
    end%nat.

Definition quota_status (status : option Z) : bool :=
  match status with
  | Some z => (z =? 403) || (z =? 429)
  | None => false
  end.

Definition all_keys_failed : exn :=
  Exception "API request failed after multiple retries with all available keys.".

(** The body of [for _ in range(len(self.api_keys))], [n] iterations left. *)
Fixpoint api_request_loop {A} (func : string -> IO A) (n : nat) (last_exc : option exn)
  : Run A :=
  match n with
  | O => raise (default all_keys_failed last_exc)
  | S n' =>
      let* yt := get_client in
      let* r := lift (attempt (func yt)) in
      match r with
      | Ok v => ret v
      | Raise (HttpError status) =>
          if quota_status status then
            lift (log_callback ("[WARN] HTTP Error " +:+ status_str status +:+ ". Rotating API key."));;
            lift (sleep 200);;
            api_request_loop func n' (Some (HttpError status))
          else raise (HttpError status)
      | Raise e =>
          lift (log_callback ("[WARN] An unexpected error occurred: " +:+ exn_str e +:+ ". Retrying..."));;
          lift (sleep 1500);;
          api_request_loop func n' (Some e)
      end
  end.

Definition api_request {A} (func : string -> IO A) : Run A :=
  let* s := get in
  api_request_loop func (length (api_keys (yt_manager s))) None.

(** ** Regular expressions as [re] runs them

    The one pattern of the module is a sequence of quantified character
    classes, so a pattern is a list of [Atom]s. Matching is greedy with
    backtracking: an atom first takes as many characters as it can and gives
    them back one at a time while the rest of the pattern fails. *)

Record Atom := {
  cls : ascii -> bool;     (* the character class *)
  rmin : nat;              (* least number of repetitions *)
  rmax : option nat        (* most repetitions; [None] is unbounded *)
}.

Definition in_range (lo hi c : ascii) : bool := Ascii.leb lo c && Ascii.leb c hi.

Definition is_letter (c : ascii) : bool := in_range "a" "z" c || in_range "A" "Z" c.
Definition is_digit (c : ascii) : bool := in_range "0" "9" c.
Definition one_of (chars : string) (c : ascii) : bool :=
  bool_decide (c ∈ list_ascii_of_string chars).

(** [[a-zA-Z0-9._%+-]], [[a-zA-Z0-9.-]], [[a-zA-Z]] and the two literals. *)
Definition local_char (c : ascii) : bool := is_letter c || is_digit c || one_of "._%+-" c.
Definition domain_char (c : ascii) : bool := is_letter c || is_digit c || one_of ".-" c.
Definition literal (x c : ascii) : bool := bool_decide (c = x).

Definition plus (p : ascii -> bool) : Atom := {| cls := p; rmin := 1; rmax := None |}.
Definition at_least (n : nat) (p : ascii -> bool) : Atom := {| cls := p; rmin := n; rmax := None |}.
Definition once (p : ascii -> bool) : Atom := {| cls := p; rmin := 1; rmax := Some 1%nat |}.

(** r"[a-zA-Z0-9._%+-]+@[a-zA-Z0-9.-]+\.[a-zA-Z]{2,}" *)
Definition EMAIL_RE : list Atom :=
  [ plus local_char; once (literal "@"); plus domain_char; once (literal "."); at_least 2 is_letter ].

(** Number of leading characters of [s] in the class. *)
Fixpoint span (p : ascii -> bool) (s : list ascii) : nat :=
  match s with
  | c :: s' => if p c then S (span p s') else O
  | [] => O
  end.

(** Try [k], [k-1], ..., [lo] repetitions; the first that lets the rest of the
    pattern match wins. *)
Fixpoint try_down (k lo : nat) (rest : nat -> option nat) : option nat :=
  if (k <? lo)%nat then None
  else match rest k with
       | Some m => Some (k + m)%nat
       | None => match k with
                 | O => None
                 | S k' => try_down k' lo rest
                 end
       end.

(** Length of the match of [re] anchored at the start of [s], if any. *)
Fixpoint match_here (re : list Atom) (s : list ascii) : option nat :=
  match re with
  | [] => Some O
  | a :: re' =>
      let avail := span (cls a) s in
      let hi := match rmax a with Some m => Nat.min m avail | None => avail end in
      try_down hi (rmin a) (fun k => match_here re' (drop k s))
  end.

(** [re.findall]: leftmost matches, scanning on after the end of each one.
    [skip] counts the characters of the last match still to be stepped over.
    (The pattern used here never matches the empty string.) *)
Fixpoint findall_from (re : list Atom) (skip : nat) (s : list ascii) : list string :=
  match s with
  | [] => []
  | _ :: s' =>
      match skip with
      | S k => findall_from re k s'
      | O =>
          match match_here re s with
          | Some len => string_of_list_ascii (take len s) :: findall_from re (len - 1) s'
          | None => findall_from re 0 s'
          end
      end
  end.

Definition findall (re : list Atom) (text : string) : list string :=
  findall_from re 0 (list_ascii_of_string text).

(** ** Helper functions *)

(** [list(set(re.findall(..., text or "")))]. The order in which a Python set
    yields its elements is unspecified; [elements] fixes one. *)
Definition extract_emails (text : option string) : list string :=
  elements (list_to_set (findall EMAIL_RE (default "" text)) : gset string).

(** [str.upper] on ASCII text: the letters a-z become A-Z and every other
    character stays. What Python makes of characters outside ASCII is not
    modelled: their bytes stay as they are. *)
Definition upper_char (c : ascii) : ascii :=
  if in_range "a" "z" c then ascii_of_nat (nat_of_ascii c - 32) else c.

Fixpoint upper (s : string) : string :=
  match s with
  | EmptyString => EmptyString
  | String c s' => String (upper_char c) (upper s')
  end.

(** Truthiness of an optional string: [None] and [""] are falsy. *)
Definition truthy (s : option string) : bool :=
  match s with
  | Some (String _ _) => true
  | _ => false
  end.

Definition is_country_allowed (country : option string) : bool :=
  match config.ALLOWED_COUNTRIES with
  | [] => true
  | _ => truthy country && bool_decide (upper (default "" country) ∈ config.ALLOWED_COUNTRIES)
  end.

(** ** Google Sheets setup *)

Record Settings := {
  youtube_api_keys : list string;
  sheet_id : string;
  sheet_name : string;
  service_account_file : string
}.

Definition header : list string := ["channelTitle"; "emails"; "channelUrl"; "keyword"].

(** [gspread.service_account] and [open_by_key] either raise [sheets_fault]
    or give the spreadsheet; the worksheet calls that follow succeed. *)
Definition setup_worksheet (settings : Settings) : IO unit :=
  let* e := get in
  match sheets_fault e with
  | Some (GSpreadException m) =>
      log_callback ("[ERROR] Failed to connect to Google Sheets. Check settings. Details: " +:+ m);;
      raise (GSpreadException m)
  | Some FileNotFoundError =>
      log_callback ("[ERROR] Service account file not found at: " +:+ service_account_file settings);;
      raise FileNotFoundError
  | Some other => raise other
  | None =>
      (match worksheet e with
       | Some _ => ret tt
       | None =>
           log_callback ("Worksheet '" +:+ sheet_name settings +:+ "' not found. Creating it.");;
           modify (set_worksheet (Some []))
       end);;
      let* e := get in
      let existing_header := default [] (worksheet e) in
      if bool_decide (head existing_header = Some header) then ret tt
      else
        log_callback "Header is missing or incorrect. Clearing sheet and adding new header.";;
        modify (set_worksheet (Some [header]))
  end.

Definition get_all_values : IO (list (list string)) :=
  let* e := get in ret (default [] (worksheet e)).

(** [worksheet.append_rows], taken to succeed. *)
Definition append_rows (rows : list (list string)) : IO unit :=
  modify (fun e => set_worksheet (Some (default [] (worksheet e) ++ rows)%list) e).

(** ** State management (checkpointing) *)

Definition empty_checkpoint : Checkpoint :=
  {| positions := None; keywords_done := None; processed_channels := None |}.

(** [except (FileNotFoundError, json.JSONDecodeError) as e] *)
Definition load_catches (e : exn) : bool :=
  match e with
  | FileNotFoundError | JSONDecodeError => true
  | _ => false
  end.

Definition load_checkpoint : IO Checkpoint :=
  let* e := get in
  match checkpoint_file e with
  | Missing => ret empty_checkpoint
  | Holds c => ret c
  | Fails err =>
      if load_catches err then
        log_callback ("[WARN] Checkpoint file is corrupted or unreadable. Starting fresh. Error: "
                      +:+ exn_str err);;
        ret empty_checkpoint
      else raise err
  end.

(** The dump replaces the content of the file; opening the file for
    writing is taken to succeed. *)
Definition save_checkpoint (checkpoint_data : Checkpoint) : IO unit :=
  modify (set_checkpoint_file (Holds checkpoint_data)).

(** [checkpoint.get("positions", {}).get(keyword)] *)
Definition saved_position (c : Checkpoint) (keyword : string) : option string :=
  default None (default ∅ (positions c) !! keyword).

(** [checkpoint.get("keywords_done", {}).get(keyword, 0)] *)
Definition saved_count (c : Checkpoint) (keyword : string) : Z :=
  default 0 (default ∅ (keywords_done c) !! keyword).

(** [checkpoint.setdefault("positions", {})[keyword] = token] *)
Definition set_position (keyword : string) (token : option string) (c : Checkpoint) : Checkpoint :=
  {| positions := Some (<[keyword := token]> (default ∅ (positions c)));
     keywords_done := keywords_done c;
     processed_channels := processed_channels c |}.

(** [checkpoint.setdefault("keywords_done", {})[keyword] = n] *)
Definition set_count (keyword : string) (n : Z) (c : Checkpoint) : Checkpoint :=
  {| positions := positions c;
     keywords_done := Some (<[keyword := n]> (default ∅ (keywords_done c)));
     processed_channels := processed_channels c |}.

(** [checkpoint["processed_channels"] = urls] *)
Definition set_processed (urls : list string) (c : Checkpoint) : Checkpoint :=
  {| positions := positions c;
     keywords_done := keywords_done c;
     processed_channels := Some urls |}.

(** ** The remote search API

    Responses are the JSON objects of the YouTube Data API, reduced to the
    fields the scraper reads; an absent key is [None]. *)

Inductive SearchItem :=
| NoSnippet                              (* [item.get("snippet")] is falsy *)
| Snippet (channelId : option string).   (* [item["snippet"]], with or without "channelId" *)

Record SearchResult := {
  sr_items : list SearchItem;            (* [.get("items", [])] *)
  nextPageToken : option string
}.

(** A value handed to [int(...)]. *)
Inductive IntLike :=
| IntOf (z : Z)
| NotInt (text : string).

Record Channel := {
  ch_id : option string;                 (* [channel.get("id")] *)
  ch_title : option string;              (* [snippet.get("title", "")] *)
  ch_description : option string;        (* [snippet.get("description", "")] *)
  ch_subscriberCount : option IntLike;   (* [stats.get("subscriberCount", 0)] *)
  ch_country : option string             (* [branding.get("country")] *)
}.

Record DetailsResult := { dr_items : list Channel }.

(** What the remote service answers to the [n]-th request of the run, made
    with the client of a given key, and when the pool's futures finish. *)
Record YouTube := {
  search_list : nat -> string -> string -> option string -> Z -> result SearchResult;
  channels_list : nat -> string -> string -> string -> result DetailsResult;
  finish_time : nat -> string -> nat
}.

Record ScanParams := {
  keywords : list string;
  min_subs : Z;
  max_subs : Z;
  inactivity_days : Z
}.

(** [params.copy()] with the key 'keyword' added. *)
Record KeywordParams := {
  scan : ScanParams;
  keyword : string
}.

Record Candidate := {
  cand_id : string;
  cand_title : string;
  cand_subs : Z;
  cand_emails : list string;
  cand_url : string
}.

Inductive PyVal :=
| PyNone
| PyInt (z : Z).

Definition py_str (v : PyVal) : string :=
  match v with PyNone => py_None | PyInt z => pretty z end.

(** [total += v] for an int [total]. *)
Definition py_iadd (total : Z) (v : PyVal) : result Z :=
  match v with
  | PyInt z => Ok (total + z)
  | PyNone => Raise (TypeError "unsupported operand type(s) for +=: 'int' and 'NoneType'")
  end.

Definition py_int (v : option IntLike) : result Z :=
  match v with
  | None => Ok 0
  | Some (IntOf z) => Ok z
  | Some (NotInt t) => Raise (ValueError ("invalid literal for int() with base 10: '" +:+ t +:+ "'"))
  end.

Definition channel_url (channel_id : option string) : string :=
  "https://www.youtube.com/channel/" +:+ default py_None channel_id.

(** [[item["snippet"]["channelId"] for item in items if item.get("snippet")]] *)
Fixpoint channel_ids_of (items : list SearchItem) : result (list string) :=
  match items with
  | [] => Ok []
  | NoSnippet :: rest => channel_ids_of rest
  | Snippet None :: _ => Raise (KeyError "channelId")
  | Snippet (Some cid) :: rest =>
      match channel_ids_of rest with
      | Ok ids => Ok (cid :: ids)
      | Raise e => Raise e
      end
  end.

(** The filtering loop over [details_result["items"]]; [existing] is the
    dedup set, which the loop only reads. *)
Fixpoint select_candidates (params : KeywordParams) (existing : gset string)
    (items : list Channel) (candidate_channels : list Candidate) : result (list Candidate) :=
  match items with
  | [] => Ok candidate_channels
  | channel :: rest =>
      let url := channel_url (ch_id channel) in
      if negb (truthy (ch_id channel)) || bool_decide (url ∈ existing)
      then select_candidates params existing rest candidate_channels
      else
        match py_int (ch_subscriberCount channel) with
        | Raise e => Raise e
        | Ok subs_count =>
            if negb ((min_subs (scan params) <=? subs_count) && (subs_count <=? max_subs (scan params)))
            then select_candidates params existing rest candidate_channels
            else if negb (is_country_allowed (ch_country channel))
            then select_candidates params existing rest candidate_channels
            else
              let emails := extract_emails (ch_description channel) in
              match emails with
              | [] => select_candidates params existing rest candidate_channels
              | _ =>
                  select_candidates params existing rest
                    (candidate_channels ++
                       [{| cand_id := default "" (ch_id channel);
                           cand_title := default "" (ch_title channel);
                           cand_subs := subs_count;
                           cand_emails := emails;
                           cand_url := url |}])%list
              end
        end
  end.

(** A Python dict with string keys: insertion order, last value wins. *)
Fixpoint dict_set {V} (k : string) (v : V) (d : list (string * V)) : list (string * V) :=
  match d with
  | [] => [(k, v)]
  | (k', v') :: d' => if bool_decide (k' = k) then (k, v) :: d' else (k', v') :: dict_set k v d'
  end.

Fixpoint dict_get {V} (k : string) (d : list (string * V)) : option V :=
  match d with
  | [] => None
  | (k', v) :: d' => if bool_decide (k' = k) then Some v else dict_get k d'
  end.

(** [{c["id"]: c for c in candidate_channels}] *)
Definition index_by_id (candidate_channels : list Candidate) : list (string * Candidate) :=
  fold_left (fun d c => dict_set (cand_id c) c d) candidate_channels [].

(** ** Main processing logic *)

Section Scraper.

(** The remote service and what [should_stop()] answers at its [n]-th poll. *)
Variable yt : YouTube.
Variable stop_signal : nat -> bool.

Definition should_stop : IO bool :=
  fun e => (Ok (stop_signal (polls e)), set_polls (S (polls e)) e).

(** [yt.search().list(q=..., type="channel", part="snippet", maxResults=..., pageToken=...).execute()] *)
Definition search_request (q : string) (pageToken : option string) (key : string)
  : IO SearchResult :=
  fun e => (search_list yt (api_calls e) key q pageToken config.MAX_RESULTS_PER_SEARCH,
            set_api_calls (S (api_calls e)) e).

(** [yt.channels().list(part=..., id=...).execute()] *)
Definition channels_request (part id : string) (key : string) : IO DetailsResult :=
  fun e => (channels_list yt (api_calls e) key part id, set_api_calls (S (api_calls e)) e).

(** The tasks submitted to the [ThreadPoolExecutor], one per key of
    [id_to_candidate]. Leaving the [with] block waits for every task, so
    all of them run; they are run here one after the other in submission
    order, each keeping its outcome in its future. *)
Fixpoint run_pool (cids : list string) : Run (list (string * result DetailsResult)) :=
  match cids with
  | [] => ret []
  | cid :: rest =>
      let* outcome := attempt (api_request (channels_request "contentDetails" cid)) in
      let* futures := run_pool rest in
      ret ((cid, outcome) :: futures)
  end.

(** [as_completed]: the futures in the order in which they finish. *)
Definition finishes_before {A} (t0 : nat) (a b : string * A) : Prop :=
  (finish_time yt t0 a.1 <= finish_time yt t0 b.1)%nat.

#[global] Instance finishes_before_dec {A} (t0 : nat) (a b : string * A)
  : Decision (finishes_before t0 a b).
Proof. unfold finishes_before. apply _. Defined.

Definition as_completed {A} (t0 : nat) (futures : list (string * A)) : list (string * A) :=
  merge_sort (finishes_before t0) futures.

Definition make_row (candidate : Candidate) (kw : string) : list string :=
  [ cand_title candidate; String.concat ", " (cand_emails candidate); cand_url candidate; kw ].

(** The loop [for future in as_completed(future_to_cid)]. *)
Fixpoint collect_rows (kw : string) (id_to_candidate : list (string * Candidate))
    (completed : list (string * result DetailsResult))
    (rows_to_append : list (list string)) (channels_added_for_kw : Z)
  : Run (list (list string) * Z) :=
  match completed with
  | [] => ret (rows_to_append, channels_added_for_kw)
  | (cid, outcome) :: rest =>
      let* stop := lift should_stop in
      if (stop : bool) then ret (rows_to_append, channels_added_for_kw)
      else
        match outcome with
        | Raise e => raise e
        | Ok _ =>
            match dict_get cid id_to_candidate with
            | None => raise (KeyError cid)
            | Some candidate =>
                let rows := (rows_to_append ++ [make_row candidate kw])%list in
                lift (modify (fun e =>
                        set_existing_channels ({[cand_url candidate]} ∪ existing_channels e) e));;
                let n := channels_added_for_kw + 1 in
                lift (log_callback ("Added: " +:+ cand_title candidate +:+ " ("
                                    +:+ pretty (cand_subs candidate) +:+ " subs) | Keyword: " +:+ kw));;
                if config.MAX_VALID_PER_KEYWORD <=? n then ret (rows, n)
                else collect_rows kw id_to_candidate rest rows n
            end
        end
  end.

(** The block [rows_to_append = []; if candidate_channels: ...]: the rows
    built for one page and the count after them. *)
Definition build_rows (kw : string) (candidate_channels : list Candidate)
    (channels_added_for_kw : Z) : Run (list (list string) * Z) :=
  match candidate_channels with
  | [] => ret ([], channels_added_for_kw)
  | _ =>
      let id_to_candidate := index_by_id candidate_channels in
      let* s := get in
      let* futures := run_pool (map fst id_to_candidate) in
      collect_rows kw id_to_candidate
        (as_completed (api_calls (env s)) futures) [] channels_added_for_kw
  end.

Definition max_pages : nat := 6.

Definition details_part : string := "snippet,statistics,brandingSettings,contentDetails".

(** The [while] loop of [process_keyword], with [pages_left] standing for
    [max_pages - pages_processed]. *)
Fixpoint process_pages (pages_left : nat) (params : KeywordParams)
    (next_page_token : option string) (channels_added_for_kw : Z) : Run unit :=
  match pages_left with
  | O => ret tt
  | S pages_left' =>
      if negb (channels_added_for_kw <? config.MAX_VALID_PER_KEYWORD) then ret tt
      else
        let* stop := lift should_stop in
        if (stop : bool) then lift (log_callback "Stopping keyword processing.")
        else
          let* search_result :=
            api_request (search_request (keyword params) next_page_token) in
          match channel_ids_of (sr_items search_result) with
          | Raise e => raise e
          | Ok [] =>
              lift (log_callback ("No more search results for '" +:+ keyword params +:+ "'."))
          | Ok channel_ids =>
              let* details_result :=
                api_request (channels_request details_part (String.concat "," channel_ids)) in
              let* s := get in
              match select_candidates params (existing_channels (env s))
                      (dr_items details_result) [] with
              | Raise e => raise e
              | Ok candidate_channels =>
                  let* built :=
                    build_rows (keyword params) candidate_channels channels_added_for_kw in
                  let rows_to_append := fst built in
                  let added := snd built in
                  (match rows_to_append with
                   | [] => ret tt
                   | _ => lift (append_rows rows_to_append)
                   end);;
                  let next := nextPageToken search_result in
                  lift (modify (fun e =>
                          set_checkpoint
                            (set_count (keyword params) added
                               (set_position (keyword params) next (checkpoint e))) e));;
                  let* s' := get in
                  lift (save_checkpoint (checkpoint (env s')));;
                  if negb (truthy next)
                  then lift (log_callback ("Reached the end of results for '"
                                           +:+ keyword params +:+ "'."))
                  else
                    lift (sleep 200);;
                    process_pages pages_left' params next added
              end
          end
  end.

(** [process_keyword] has no [return] statement: it gives back [None]. *)
Definition process_keyword (params : KeywordParams) : Run PyVal :=
  let* s := get in
  let c := checkpoint (env s) in
  process_pages max_pages params
    (saved_position c (keyword params)) (saved_count c (keyword params));;
  ret PyNone.

(** ** Entry point *)

Definition nl : string := String (ascii_of_nat 10) EmptyString.

(** [set(row[2] for row in all_values[1:] if len(row) >= 3)] *)
Definition sheet_urls (all_values : list (list string)) : list string :=
  omap (fun row => if bool_decide (3 <= length row)%nat then row !! 2%nat else None)
       (tail all_values).

(** The [for kw in params['keywords']] loop, with the running total. *)
Fixpoint keyword_loop (params : ScanParams) (kws : list string) (total_added : Z) : Run Z :=
  match kws with
  | [] => ret total_added
  | kw :: rest =>
      let* stop := lift should_stop in
      if (stop : bool) then
        lift (log_callback "Scraping stopped by user.");;
        ret total_added
      else
        let* s := get in
        if config.MAX_VALID_PER_KEYWORD <=? saved_count (checkpoint (env s)) kw then
          lift (log_callback ("Skipping keyword '" +:+ kw +:+ "' as it's already fully processed."));;
          keyword_loop params rest total_added
        else
          lift (log_callback (nl +:+ "=== Processing Keyword: " +:+ kw +:+ " ==="));;
          let keyword_params := {| scan := params; keyword := kw |} in
          let* count := process_keyword keyword_params in
          lift (log_callback ("--- Added " +:+ py_str count +:+ " new channels for '" +:+ kw +:+ "' ---"));;
          match py_iadd total_added count with
          | Raise e => raise e
          | Ok total =>
              lift (modify (fun e =>
                      set_checkpoint
                        (set_processed (elements (existing_channels e)) (checkpoint e)) e));;
              let* s' := get in
              lift (save_checkpoint (checkpoint (env s')));;
              keyword_loop params rest total
          end
  end.

Definition summary (total_added : Z) : string :=
  nl +:+ "DONE! Total new channels added in this session: " +:+ pretty total_added.

Definition run_scraper (params : ScanParams) (settings : Settings) : Run unit :=
  lift (log_callback "Scraper starting...");;
  match new_manager (youtube_api_keys settings) with
  | Raise e => raise e
  | Ok mgr =>
      modify (fun s => {| yt_manager := mgr; clients := clients s; env := env s |});;
      lift (setup_worksheet settings);;
      lift (log_callback "Loading existing channels from Google Sheet...");;
      let* all_values := lift get_all_values in
      let existing : gset string := list_to_set (sheet_urls all_values) in
      lift (modify (set_existing_channels existing));;
      lift (log_callback ("Found " +:+ pretty (size existing) +:+ " existing channels."));;
      let* loaded := lift load_checkpoint in
      lift (modify (set_checkpoint loaded));;
      let* total_added := keyword_loop params (keywords params) 0 in
      lift (log_callback (summary total_added))
  end.

End Scraper.

(** * settings.py and the worker of gui.py *)

(** What the settings file gives when it is read. A stored object has the
    four keys that [SettingsWindow.accept] and the defaults always write. *)
Inductive SettingsFile :=
| NoSettings                      (* [os.path.exists] is False *)
| StoredSettings (s : Settings)   (* [json.load] returns this object *)
| BadSettings (e : exn).          (* [open] or [json.load] raises [e] *)

(** The signals of [ScraperWorker] other than [log_message], whose lines
    are the log of the scraper. *)
Inductive Signal :=
| ErrorSignal (message : string)
| FinishedSignal.

Record Desk := {
  settings_dir_fault : option exn;   (* what [os.makedirs(app_dir, exist_ok=True)] raises, if anything *)
  settings_file : SettingsFile;
  signals : list Signal              (* emitted so far, oldest first *)
}.

Definition default_settings : Settings :=
  {| youtube_api_keys := []; sheet_id := ""; sheet_name := "Sheet1";
     service_account_file := "" |}.

(** [get_settings_path]: the path itself plays no part here. *)
Definition get_settings_path : M Desk unit :=
  fun d => match settings_dir_fault d with
           | Some e => (Raise e, d)
           | None => (Ok tt, d)
           end.

(** [except (json.JSONDecodeError, FileNotFoundError)] *)
Definition settings_catches (e : exn) : bool :=
  match e with
  | JSONDecodeError | FileNotFoundError => true
  | _ => false
  end.

Definition load_settings : M Desk Settings :=
  get_settings_path;;
  let* d := get in
  match settings_file d with
  | NoSettings => ret default_settings
  | StoredSettings s => ret s
  | BadSettings e => if settings_catches e then ret default_settings else raise e
  end.

(** [try: body except Exception as e: handler(e)] *)
Definition try_except {S A} (body : M S A) (handler : exn -> M S A) : M S A :=
  fun s => match body s with
           | (Raise e, s') => handler e s'
           | out => out
           end.

(** [try: body finally: final] *)
Definition try_finally {S A} (body : M S A) (final : M S unit) : M S A :=
  fun s => match body s with
           | (r, s') => match final s' with
                        | (Ok _, s'') => (r, s'')
                        | (Raise e, s'') => (Raise e, s'')
                        end
           end.

(** The worker thread: the desk and the state of the scraper. *)
Record App := {
  desk : Desk;
  scraping : State
}.

Definition on_desk {A} (m : M Desk A) : M App A :=
  fun a => match m (desk a) with
           | (r, d) => (r, {| desk := d; scraping := scraping a |})
           end.

Definition on_scraper {A} (m : Run A) : M App A :=
  fun a => match m (scraping a) with
           | (r, s) => (r, {| desk := desk a; scraping := s |})
           end.

Definition emit (sig : Signal) : M App unit :=
  on_desk (modify (fun d => {| settings_dir_fault := settings_dir_fault d;
                               settings_file := settings_file d;
                               signals := signals d ++ [sig] |})).

Definition no_keys_message : string :=
  "No YouTube API keys found. Please add them in Settings.".

Definition no_sheet_message : string :=
  "Google Sheets information is incomplete. Please configure it in Settings.".

(** Truthiness of a string and of a list. *)
Definition nonempty_string (s : string) : bool :=
  match s with EmptyString => false | _ => true end.

Definition nonempty_list {A} (l : list A) : bool :=
  match l with [] => false | _ => true end.

(** [ScraperWorker.run]; [stop_signal] answers [not self._is_running]. *)
Definition worker_run (yt : YouTube) (stop_signal : nat -> bool) (params : ScanParams)
  : M App unit :=
  try_finally
    (try_except
       (let* app_settings := on_desk load_settings in
        if negb (nonempty_list (youtube_api_keys app_settings)) then
          emit (ErrorSignal no_keys_message)
        else if negb (nonempty_string (sheet_id app_settings)
                      && nonempty_string (service_account_file app_settings)) then
          emit (ErrorSignal no_sheet_message)
        else
          on_scraper (run_scraper yt stop_signal params app_settings))
       (fun e => emit (ErrorSignal ("An error occurred: " +:+ exn_str e))))
    (emit FinishedSignal).

(** * Specification vocabulary *)

(** ** Credential rotator *)

(** [n] consecutive grants, with the keys they hand out. *)
Fixpoint grants (n : nat) : Run (list string) :=
  match n with
  | O => ret []
  | S n' =>
      let* key := get_client in
      let* more := grants n' in
      ret (key :: more)
  end.

(** The errors after which [api_request] goes round its loop again: an
    [HttpError] of status 403 or 429, and any exception that is not an
    [HttpError]. *)
Definition retryable (e : exn) : bool :=
  match e with
  | HttpError status => quota_status status
  | _ => true
  end.

Definition is_http_error (e : exn) : bool :=
  match e with HttpError _ => true | _ => false end.

(** What the handler of a retryable error does to the outside world: a
    warning and a pause. *)
Definition backoff (e : exn) (en : Env) : Env :=
  match e with
  | HttpError status =>
      snd ((log_callback ("[WARN] HTTP Error " +:+ status_str status +:+ ". Rotating API key.");;
            sleep 200) en)
  | _ =>
      snd ((log_callback ("[WARN] An unexpected error occurred: " +:+ exn_str e +:+ ". Retrying...");;
            sleep 1500) en)
  end.

(** A chain of attempts of [func]: it starts at key number [i] in world [e],
    every attempt but the last raises a retryable error and is followed by
    the back-off and by an attempt on the next key of the pool; [used] lists
    the keys of the attempts and [r], [e'] are what the last one gave. *)
Inductive retry_chain {A} (func : string -> IO A) (keys : list string)
  : nat -> Env -> list string -> result A -> Env -> Prop :=
| chain_last i e key r e' :
    keys !! i = Some key ->
    func key e = (r, e') ->
    retry_chain func keys i e [key] r e'
| chain_retry i e key err e' used r e'' :
    keys !! i = Some key ->
    func key e = (Raise err, e') ->
    retryable err = true ->
    retry_chain func keys ((i + 1) `mod` length keys)%nat (backoff err e') used r e'' ->
    retry_chain func keys i e (key :: used) r e''.

(** The world after the last attempt of a chain. *)
Definition after_last {A} (r : result A) (e : Env) : Env :=
  match r with
  | Raise err => if retryable err then backoff err e else e
  | Ok _ => e
  end.

Definition advanced (mgr : YouTubeClientManager) (k : nat) : YouTubeClientManager :=
  {| api_keys := api_keys mgr;
     current_key_index := ((current_key_index mgr + k) `mod` length (api_keys mgr))%nat |}.

Definition with_env (s : State) (e : Env) : State :=
  {| yt_manager := yt_manager s; clients := clients s; env := e |}.

(** The clients built between two states. *)
Definition clients_since (before after : State) : list string :=
  drop (length (clients before)) (clients after).

(** "Retried against the same key": every client built during the call is
    for the key the call started with. *)
Definition same_key_retry {A} (func : string -> IO A) (s : State) : Prop :=
  forall key,
    api_keys (yt_manager s) !! current_key_index (yt_manager s) = Some key ->
    Forall (eq key) (clients_since s (snd (api_request func s))).

(** ** Email extractor *)

(** The strings a pattern denotes: one block of characters per atom, each
    within its class and its bounds. *)
Fixpoint matches (re : list Atom) (s : list ascii) : Prop :=
  match re with
  | [] => s = []
  | a :: re' =>
      exists s1 s2,
        s = (s1 ++ s2)%list
        /\ Forall (fun c => cls a c = true) s1
        /\ (rmin a <= length s1)%nat
        /\ (forall m, rmax a = Some m -> (length s1 <= m)%nat)
        /\ matches re' s2
  end.

(** The email shape: a local part, '@', a domain part, '.', and a top-level
    domain of two or more letters. *)
Definition email_shape (e : string) : Prop :=
  exists local_part domain tld : list ascii,
    list_ascii_of_string e = (local_part ++ "@"%char :: domain ++ "."%char :: tld)%list
    /\ (1 <= length local_part)%nat /\ Forall (fun c => local_char c = true) local_part
    /\ (1 <= length domain)%nat /\ Forall (fun c => domain_char c = true) domain
    /\ (2 <= length tld)%nat /\ Forall (fun c => is_letter c = true) tld.

(** [e] is a substring of [text]. *)
Definition occurs_in (e text : string) : Prop :=
  exists pre post : list ascii,
    list_ascii_of_string text = (pre ++ list_ascii_of_string e ++ post)%list.

(** ** Checkpoint store *)

(** "Never fails the caller". *)
Definition load_never_raises (e : Env) : Prop :=
  exists c, fst (load_checkpoint e) = Ok c.

Definition load_warning (err : exn) : string :=
  "[WARN] Checkpoint file is corrupted or unreadable. Starting fresh. Error: " +:+ exn_str err.

(** ** Keyword processor and orchestrator *)

Definition rows_of (e : Env) : list (list string) := default [] (worksheet e).

(** [e'] differs from [e] at most in the log, the pauses and the counters of
    requests and polls. *)
Definition frame (e e' : Env) : Prop :=
  sheets_fault e' = sheets_fault e
  /\ worksheet e' = worksheet e
  /\ checkpoint_file e' = checkpoint_file e
  /\ existing_channels e' = existing_channels e
  /\ checkpoint e' = checkpoint e.

(** [e'] differs from [e] at most in the dedup set and in what [frame] allows. *)
Definition same_store (e e' : Env) : Prop :=
  sheets_fault e' = sheets_fault e
  /\ worksheet e' = worksheet e
  /\ checkpoint_file e' = checkpoint_file e
  /\ checkpoint e' = checkpoint e.

(** Two checkpoints that say the same about every keyword but [kw]. *)
Definition agree_off (kw : string) (c c' : Checkpoint) : Prop :=
  forall k, k <> kw ->
    saved_position c' k = saved_position c k /\ saved_count c' k = saved_count c k.

Definition rows_for (kw : string) (cs : list Candidate) : list (list string) :=
  map (fun c => make_row c kw) cs.

(** What processing keyword [kw] may do to the world: append rows of fresh,
    pairwise distinct URLs, all for [kw], enlarge the dedup set by at least
    those URLs, touch the checkpoint entries of [kw] only, and save. *)
Definition grows (kw : string) (e e' : Env) : Prop :=
  sheets_fault e' = sheets_fault e
  /\ (exists cs : list Candidate,
        rows_of e' = (rows_of e ++ rows_for kw cs)%list
        /\ NoDup (map cand_url cs)
        /\ (forall c, c ∈ cs ->
            (cand_url c ∉ existing_channels e) /\ (cand_url c ∈ existing_channels e')))
  /\ existing_channels e ⊆ existing_channels e'
  /\ agree_off kw (checkpoint e) (checkpoint e')
  /\ (checkpoint_file e' = checkpoint_file e
      \/ exists ck, checkpoint_file e' = Holds ck /\ agree_off kw (checkpoint e) ck).

(** A candidate as the filter builds it: its URL is the channel URL of its
    id and is not in the dedup set the filter read. *)
Definition fresh_candidate (existing : gset string) (c : Candidate) : Prop :=
  cand_url c = channel_url (Some (cand_id c)) /\ cand_url c ∉ existing.

(** The index of the candidates: distinct keys, each the id of its value. *)
Definition indexed (existing : gset string) (kv : string * Candidate) : Prop :=
  cand_id kv.2 = kv.1 /\ fresh_candidate existing kv.2.

(** The URL column of a batch of rows. *)
Definition url_column (rows : list (list string)) : list string :=
  omap (fun row => row !! 2%nat) rows.

(** The dedup invariant, relative to the rows [kept] that the sheet held when
    the scan began: the rows appended since all have a URL, these URLs are
    pairwise distinct, none of them is a URL of the kept rows, and the dedup
    set knows all of them. *)
Definition dedup (kept : list (list string)) (e : Env) : Prop :=
  exists appended,
    rows_of e = (kept ++ appended)%list
    /\ length (url_column appended) = length appended
    /\ NoDup (url_column appended)
    /\ (forall u, u ∈ url_column appended ->
          (u ∈ existing_channels e) /\ (u ∉ sheet_urls kept))
    /\ (forall u, u ∈ sheet_urls kept -> u ∈ existing_channels e).

(** Keyword [K] is left alone: its cursor is [cursor] in the checkpoint and
    in any saved file, its count stays at the cap or above, and no row
    appended after [kept] is for [K]. *)
Definition untouched (K : string) (cursor : option string) (kept : list (list string))
    (e : Env) : Prop :=
  saved_position (checkpoint e) K = cursor
  /\ config.MAX_VALID_PER_KEYWORD <= saved_count (checkpoint e) K
  /\ (forall c, checkpoint_file e = Holds c -> saved_position c K = cursor)
  /\ exists appended,
      rows_of e = (kept ++ appended)%list
      /\ Forall (fun row => row !! 3%nat <> Some K) appended.

(** The two statements at the end of the body of the keyword loop. *)
Definition snapshot (e : Env) : Env :=
  let c := set_processed (elements (existing_channels e)) (checkpoint e) in
  set_checkpoint_file (Holds c) (set_checkpoint c e).

(** The world in which the keyword loop starts, seen from the world [e0] in
    which [run_scraper] was called: the sheet is as it was or was reset to
    the header, the dedup set holds the URLs of the sheet, and the
    checkpoint is the one read from the untouched file. *)
Definition loop_start (e0 e1 : Env) : Prop :=
  (rows_of e1 = rows_of e0 \/ rows_of e1 = [header])
  /\ existing_channels e1 = list_to_set (sheet_urls (rows_of e1))
  /\ checkpoint_file e1 = checkpoint_file e0
  /\ (forall c0, checkpoint_file e0 = Holds c0 -> checkpoint e1 = c0).

(** The parameters of a scan with another value for [inactivity_days]. *)
Definition with_inactivity (d : Z) (p : ScanParams) : ScanParams :=
  {| keywords := keywords p; min_subs := min_subs p; max_subs := max_subs p;
     inactivity_days := d |}.

(** The saved checkpoint is in step with the one in memory: reading the
    checkpoint file now gives the checkpoint that the scan works on. This
    is so when [run_scraper] has loaded the checkpoint, also from a missing
    file, and after every [save_checkpoint]. *)
Definition in_step (e : Env) : Prop :=
  fst (load_checkpoint e) = Ok (checkpoint e).




(** ** Sample worlds *)

Definition quiet_env : Env :=
  {| log := []; slept := []; api_calls := 0; polls := 0; sheets_fault := None;
     worksheet := Some [header]; checkpoint_file := Missing;
     existing_channels := ∅; checkpoint := empty_checkpoint |}.

Definition state_of (keys : list string) (i : nat) (e : Env) : State :=
  {| yt_manager := {| api_keys := keys; current_key_index := i |}; clients := []; env := e |}.

(** A request whose successive calls give the outcomes of a script. *)
Definition scripted {A} (outs : list (result A)) (key : string) : IO A :=
  fun e => (nth (api_calls e) outs (Raise (Exception "end of script")),
            set_api_calls (S (api_calls e)) e).

(** A checkpoint file that exists but may not be read. *)
Definition locked_file_env : Env :=
  set_checkpoint_file
    (Fails (OSError "[Errno 13] Permission denied: 'youtube_checkpoint.json'")) quiet_env.

(** A remote service that finds nothing, a stop signal that is never set. *)
Definition no_hits : YouTube :=
  {| search_list := fun _ _ _ _ _ => Ok {| sr_items := []; nextPageToken := None |};
     channels_list := fun _ _ _ _ => Ok {| dr_items := [] |};
     finish_time := fun _ _ => 0%nat |}.

Definition never_stop : nat -> bool := fun _ => false.

Definition sample_settings : Settings :=
  {| youtube_api_keys := ["K1"; "K2"]; sheet_id := "sheet"; sheet_name := "Sheet1";
     service_account_file := "sa.json" |}.

Definition cats_scan : ScanParams :=
  {| keywords := ["cats"]; min_subs := 100; max_subs := 100000; inactivity_days := 90 |}.

(** The state in which [run_scraper] is called: no manager yet. *)
Definition boot (e : Env) : State := state_of [] 0 e.



(** A checkpoint in which "cats" has reached the cap. *)
Definition capped_checkpoint : Checkpoint :=
  {| positions := Some {[ "cats" := Some "PAGE3" ]};
     keywords_done := Some {[ "cats" := 100 ]};
     processed_channels := None |}.

Definition capped_env : Env :=
  set_checkpoint capped_checkpoint (set_checkpoint_file (Holds capped_checkpoint) quiet_env).

(** A remote service that answers every search with the same channel, twice
    on the page. *)
Definition cat_lady : Channel :=
  {| ch_id := Some "UC1"; ch_title := Some "Cat Lady";
     ch_description := Some "mail: cat@lady.org";
     ch_subscriberCount := Some (IntOf 5000); ch_country := Some "us" |}.

Definition same_channel : YouTube :=
  {| search_list := fun _ _ _ _ _ =>
       Ok {| sr_items := [Snippet (Some "UC1"); Snippet (Some "UC1")]; nextPageToken := None |};
     channels_list := fun _ _ _ _ => Ok {| dr_items := [cat_lady; cat_lady] |};
     finish_time := fun _ _ => 0%nat |}.

Definition cats : KeywordParams := {| scan := cats_scan; keyword := "cats" |}.
Definition dogs : KeywordParams := {| scan := cats_scan; keyword := "dogs" |}.

(** ** Further vocabulary *)

(** The cursor of the manager points into its pool. *)
Definition valid_manager (mgr : YouTubeClientManager) : Prop :=
  (current_key_index mgr < length (api_keys mgr))%nat.

(** Candidate [c] is what the filter makes of channel [ch]: the channel has
    a non-empty id whose URL is not in the dedup set, a subscriber count
    within the bounds of the scan, an allowed country and at least one
    email in its description. *)
Definition passes_filters (params : KeywordParams) (existing : gset string)
    (ch : Channel) (c : Candidate) : Prop :=
  ch_id ch = Some (cand_id c)
  /\ cand_id c <> ""
  /\ cand_url c = channel_url (Some (cand_id c))
  /\ (cand_url c ∉ existing)
  /\ py_int (ch_subscriberCount ch) = Ok (cand_subs c)
  /\ (min_subs (scan params) <= cand_subs c <= max_subs (scan params))
  /\ is_country_allowed (ch_country ch) = true
  /\ cand_emails c = extract_emails (ch_description ch)
  /\ cand_emails c <> []
  /\ cand_title c = default "" (ch_title ch).

(** Text of ASCII characters only, where [upper] is [str.upper]. *)
Definition is_ascii (c : ascii) : bool := (nat_of_ascii c <? 128)%nat.

Definition ascii_only (s : string) : Prop :=
  forallb is_ascii (list_ascii_of_string s) = true.

(** The calls of one state to the next keep the pool and, if the cursor was
    inside it, leave it inside. *)
Definition pool_kept (s s' : State) : Prop :=
  api_keys (yt_manager s') = api_keys (yt_manager s)
  /\ (valid_manager (yt_manager s) -> valid_manager (yt_manager s')).

(** What the page loop of keyword [kw], entered with count [cnt], has done
    between [s] and [s']: either nothing to the sheet, the checkpoint and
    its file, or it has appended the rows of some candidates [cs] and left
    the checkpoint, saved, with the entries of [kw] replaced, the count
    being [cnt] plus the number of those rows and at most the cap. *)
Definition tracked (kw : string) (cnt : Z) (s s' : State) : Prop :=
  (rows_of (env s') = rows_of (env s)
   /\ checkpoint (env s') = checkpoint (env s)
   /\ checkpoint_file (env s') = checkpoint_file (env s))
  \/ (exists (cs : list Candidate) (tok : option string),
        rows_of (env s') = (rows_of (env s) ++ rows_for kw cs)%list
        /\ checkpoint (env s')
           = set_count kw (cnt + Z.of_nat (length cs)) (set_position kw tok (checkpoint (env s)))
        /\ checkpoint_file (env s') = Holds (checkpoint (env s'))
        /\ cnt < config.MAX_VALID_PER_KEYWORD
        /\ cnt + Z.of_nat (length cs) <= config.MAX_VALID_PER_KEYWORD).

(** The sheet only grows and the dedup set only grows, from [e0] on. *)
Definition append_only (e0 e : Env) : Prop :=
  (exists appended, rows_of e = (rows_of e0 ++ appended)%list)
  /\ existing_channels e0 ⊆ existing_channels e.

Definition no_keys_error : exn := ValueError "No YouTube API keys provided.".

(** The desk after a signal. *)
Definition signalled (sigs : list Signal) (d : Desk) : Desk :=
  {| settings_dir_fault := settings_dir_fault d;
     settings_file := settings_file d;
     signals := (signals d ++ sigs)%list |}.

(** A desk with nothing on it. *)
Definition bare_desk : Desk :=
  {| settings_dir_fault := None; settings_file := NoSettings; signals := [] |}.

(** Two candidates of one page with the same id. *)
Definition first_entry : Candidate :=
  {| cand_id := "UC1"; cand_title := "Cat Lady"; cand_subs := 5000;
     cand_emails := ["cat@lady.org"]; cand_url := "https://www.youtube.com/channel/UC1" |}.

Definition second_entry : Candidate :=
  {| cand_id := "UC1"; cand_title := "Cat Lady (again)"; cand_subs := 5001;
     cand_emails := ["cat@lady.org"]; cand_url := "https://www.youtube.com/channel/UC1" |}.

(** Between [s] and [s'] nothing was asked of the remote service and
    nothing was written: the same manager, clients and request counter, and
    a world that differs at most in the log and the poll counter. *)
Definition idle (s s' : State) : Prop :=
  yt_manager s' = yt_manager s
  /\ clients s' = clients s
  /\ api_calls (env s') = api_calls (env s)
  /\ slept (env s') = slept (env s)
  /\ frame (env s) (env s').

(** * Properties *)

(** ** Credential rotator *)

Lemma get_client_ok (s : State) (key : string) :
  api_keys (yt_manager s) !! current_key_index (yt_manager s) = Some key ->
  get_client s =
    (Ok key, {| yt_manager := advanced (yt_manager s) 1;
                clients := clients s ++ [key];
                env := env s |}).
Proof. intros H. unfold get_client. rewrite H. reflexivity. Qed.

Lemma advanced_advanced (mgr : YouTubeClientManager) (a b : nat) :
  advanced (advanced mgr a) b = advanced mgr (a + b).
Proof.
  unfold advanced; simpl. f_equal.
  destruct (decide (length (api_keys mgr) = 0%nat)) as [E|E].
  - rewrite E. simpl. lia.
  - rewrite Nat.Div0.add_mod_idemp_l. f_equal. lia.
Qed.

Lemma advanced_in_range (mgr : YouTubeClientManager) (k : nat) :
  (0 < length (api_keys mgr))%nat ->
  (current_key_index (advanced mgr k) < length (api_keys (advanced mgr k)))%nat.
Proof. intros H. simpl. apply Nat.mod_upper_bound. lia. Qed.

Lemma grants_ok (n : nat) : forall s : State,
  (current_key_index (yt_manager s) < length (api_keys (yt_manager s)))%nat ->
  exists granted,
    grants n s = (Ok granted, {| yt_manager := advanced (yt_manager s) n;
                                 clients := clients s ++ granted;
                                 env := env s |})
    /\ length granted = n.
Proof.
  induction n as [|n IH]; intros s Hs.
  - exists []. split; [|reflexivity]. simpl. unfold ret. destruct s as [[ks i] cl en]; simpl in *.
    unfold advanced; simpl. rewrite Nat.add_0_r, Nat.mod_small by lia. by rewrite app_nil_r.
  - destruct (lookup_lt_is_Some_2 _ _ Hs) as [key Hkey].
    simpl. unfold bind at 1. rewrite (get_client_ok s key Hkey).
    edestruct (IH {| yt_manager := advanced (yt_manager s) 1;
                     clients := clients s ++ [key]; env := env s |}) as (more & Hm & Hl).
    { simpl. apply Nat.mod_upper_bound. lia. }
    unfold bind. rewrite Hm. simpl clients; simpl env; simpl yt_manager.
    exists (key :: more). split; [|simpl; lia].
    unfold ret. rewrite advanced_advanced, <- app_assoc. reflexivity.
Qed.

(** C5. For a pool of N >= 1 keys and any cursor inside the pool, N
    consecutive [get_client] grants all succeed and leave the manager with the
    cursor (and so the next key to grant) it started with. *)
Theorem get_client_round_robin_closure (s : State) :
  (1 <= length (api_keys (yt_manager s)))%nat ->
  (current_key_index (yt_manager s) < length (api_keys (yt_manager s)))%nat ->
  exists granted s',
    grants (length (api_keys (yt_manager s))) s = (Ok granted, s')
    /\ length granted = length (api_keys (yt_manager s))
    /\ current_key_index (yt_manager s') = current_key_index (yt_manager s)
    /\ api_keys (yt_manager s') = api_keys (yt_manager s).
Proof.
  intros HN Hi.
  destruct (grants_ok (length (api_keys (yt_manager s))) s Hi) as (granted & Hg & Hl).
  eexists _, _. split; [exact Hg|]. split; [exact Hl|]. simpl. split; [|reflexivity].
  rewrite <- (Nat.mul_1_l (length (api_keys (yt_manager s)))) at 1.
  rewrite Nat.Div0.mod_add. apply Nat.mod_small. exact Hi.
Qed.

Lemma api_request_loop_step {A} (func : string -> IO A) (n : nat) (last : option exn)
    (s : State) (key : string) (r : result A) (e1 : Env) :
  api_keys (yt_manager s) !! current_key_index (yt_manager s) = Some key ->
  func key (env s) = (r, e1) ->
  api_request_loop func (S n) last s =
    let s1 := {| yt_manager := advanced (yt_manager s) 1;
                 clients := clients s ++ [key]; env := e1 |} in
    match r with
    | Ok v => (Ok v, s1)
    | Raise err =>
        if retryable err
        then api_request_loop func n (Some err) (with_env s1 (backoff err e1))
        else (Raise err, s1)
    end.
Proof.
  intros Hkey Hf. simpl. unfold bind at 1. rewrite (get_client_ok s key Hkey).
  unfold bind at 1, lift at 1, attempt. simpl env. rewrite Hf.
  destruct r as [v|err]; [reflexivity|].
  destruct err as [st| | | | | | | | |]; simpl; try reflexivity.
  destruct (quota_status st); reflexivity.
Qed.

Lemma api_request_loop_chain {A} (func : string -> IO A) (n : nat) :
  forall (s : State) (last : option exn),
  (current_key_index (yt_manager s) < length (api_keys (yt_manager s)))%nat ->
  exists used r e',
    retry_chain func (api_keys (yt_manager s)) (current_key_index (yt_manager s)) (env s) used r e'
    /\ (length used <= S n)%nat
    /\ (forall err, r = Raise err -> retryable err = true -> length used = S n)
    /\ api_request_loop func (S n) last s =
         (r, {| yt_manager := advanced (yt_manager s) (length used);
                clients := clients s ++ used;
                env := after_last r e' |}).
Proof.
  induction n as [|n IH]; intros s last Hi;
    destruct (lookup_lt_is_Some_2 _ _ Hi) as [key Hkey];
    destruct (func key (env s)) as [r e1] eqn:Hf;
    rewrite (api_request_loop_step func _ last s key r e1 Hkey Hf); cbv zeta.
  - exists [key], r, e1. split; [by apply chain_last|]. split; [simpl; lia|]. split; [reflexivity|].
    destruct r as [v|err]; [reflexivity|]. simpl after_last.
    destruct (retryable err); reflexivity.
  - destruct r as [v|err].
    { exists [key], (Ok v), e1. split; [by apply chain_last|]. split; [simpl; lia|].
      split; [discriminate|reflexivity]. }
    destruct (retryable err) eqn:Hr.
    2:{ exists [key], (Raise err), e1. split; [by apply chain_last|]. split; [simpl; lia|].
        split; [intros ? [= <-]; congruence|]. simpl. rewrite Hr. reflexivity. }
    edestruct (IH (with_env {| yt_manager := advanced (yt_manager s) 1;
                               clients := clients s ++ [key]; env := e1 |} (backoff err e1))
                  (Some err)) as (used & r & e' & Hc & Hl & Hall & Hrun).
    { unfold with_env. simpl yt_manager. apply advanced_in_range. lia. }
    exists (key :: used), r, e'. split.
    { eapply chain_retry; eauto. }
    split; [simpl; lia|]. split.
    { intros e0 He0 Hr0. simpl. f_equal. eauto. }
    rewrite Hrun. unfold with_env. simpl yt_manager; simpl clients.
    rewrite advanced_advanced, <- app_assoc. reflexivity.
Qed.

(** C4. With a pool of N keys, [api_request] makes a chain of at most N
    attempts, each on the next key of the pool; a quota-class error (403 or
    429) is followed by a warning, a pause and the next attempt, and ends the
    call only when it was the N-th; the call then raises that last error.
    The outcome of the last attempt is the outcome of the call, so a result
    is returned unchanged. In particular, with two keys, a quota-class error
    on the first call and a success on the second, the caller gets the
    successful result. *)
Theorem api_request_rotates_on_quota {A} (func : string -> IO A) (s : State) :
  (current_key_index (yt_manager s) < length (api_keys (yt_manager s)))%nat ->
  (exists used r e',
      retry_chain func (api_keys (yt_manager s)) (current_key_index (yt_manager s)) (env s)
        used r e'
      /\ (length used <= length (api_keys (yt_manager s)))%nat
      /\ (forall err, r = Raise err -> retryable err = true ->
          length used = length (api_keys (yt_manager s)))
      /\ api_request func s =
           (r, {| yt_manager := advanced (yt_manager s) (length used);
                  clients := clients s ++ used;
                  env := after_last r e' |}))
  /\ (forall key0 key1 status e1 v e2,
        api_keys (yt_manager s) = [key0; key1] ->
        current_key_index (yt_manager s) = 0%nat ->
        func key0 (env s) = (Raise (HttpError status), e1) ->
        quota_status status = true ->
        func key1 (backoff (HttpError status) e1) = (Ok v, e2) ->
        api_request func s =
          (Ok v, {| yt_manager := yt_manager s;
                    clients := clients s ++ [key0; key1];
                    env := e2 |})).
Proof.
  intros Hi. split.
  - unfold api_request, bind, get.
    destruct (length (api_keys (yt_manager s))) as [|n] eqn:HN; [lia|].
    rewrite <- HN in Hi.
    destruct (api_request_loop_chain func n s None Hi) as (used & r & e' & Hc & Hl & Hall & Hrun).
    exists used, r, e'. rewrite HN in *. eauto.
  - intros key0 key1 status e1 v e2 Hkeys Hidx H0 Hq H1.
    unfold api_request, bind, get. rewrite Hkeys. simpl length.
    erewrite api_request_loop_step; [|rewrite Hkeys, Hidx; reflexivity|exact H0].
    cbv beta iota zeta. change (retryable (HttpError status)) with (quota_status status).
    rewrite Hq.
    erewrite api_request_loop_step; [| |exact H1].
    2:{ unfold with_env, advanced. simpl. rewrite Hkeys, Hidx. reflexivity. }
    cbv zeta. f_equal. unfold with_env. simpl. f_equal.
    + unfold advanced. simpl. rewrite Hkeys, Hidx. simpl.
      destruct s as [[ks i] cl en]. simpl in *. subst. reflexivity.
    + by rewrite <- app_assoc.
Qed.

Lemma retry_chain_nonempty {A} (func : string -> IO A) keys i e used r e' :
  retry_chain func keys i e used r e' -> exists key, keys !! i = Some key /\ head used = Some key.
Proof. intros H. destruct H; eauto. Qed.

(** C3 (amended). When an attempt raises an exception that is not an
    [HttpError], [api_request] logs a warning, sleeps 1.5 s and, if the pool
    has another attempt left, makes it with the NEXT key of the pool: every
    attempt takes a fresh client from [get_client], which advances the
    cursor. The attempts of one call number at most N; with a single key the
    error is raised without any retry. *)
Theorem api_request_retries_on_next_key {A} (func : string -> IO A) (s : State)
    (key0 : string) (err : exn) (e1 : Env) :
  api_keys (yt_manager s) !! current_key_index (yt_manager s) = Some key0 ->
  func key0 (env s) = (Raise err, e1) ->
  is_http_error err = false ->
  slept (backoff err e1) = (slept e1 ++ [1500%N])%list
  /\ (length (api_keys (yt_manager s)) = 1%nat ->
      api_request func s =
        (Raise err, {| yt_manager := advanced (yt_manager s) 1;
                       clients := clients s ++ [key0];
                       env := backoff err e1 |}))
  /\ ((2 <= length (api_keys (yt_manager s)))%nat ->
      exists key1 used r e',
        api_keys (yt_manager s)
          !! ((current_key_index (yt_manager s) + 1) `mod` length (api_keys (yt_manager s)))%nat
          = Some key1
        /\ head used = Some key1
        /\ retry_chain func (api_keys (yt_manager s))
             ((current_key_index (yt_manager s) + 1) `mod` length (api_keys (yt_manager s)))%nat
             (backoff err e1) used r e'
        /\ (length used <= length (api_keys (yt_manager s)) - 1)%nat
        /\ api_request func s =
             (r, {| yt_manager := advanced (yt_manager s) (1 + length used);
                    clients := clients s ++ key0 :: used;
                    env := after_last r e' |})).
Proof.
  intros Hkey Hf Hne.
  assert (Hr : retryable err = true) by (destruct err; simpl in *; congruence).
  split; [destruct err; simpl in *; congruence|].
  split.
  - intros HN. unfold api_request, bind, get. rewrite HN.
    rewrite (api_request_loop_step func 0 None s key0 _ e1 Hkey Hf).
    cbv beta iota zeta. rewrite Hr. reflexivity.
  - intros HN. unfold api_request, bind, get.
    destruct (length (api_keys (yt_manager s))) as [|[|n]] eqn:HL; [lia|lia|].
    rewrite (api_request_loop_step func (S n) None s key0 _ e1 Hkey Hf).
    cbv beta iota zeta. rewrite Hr.
    edestruct (api_request_loop_chain func n
                 (with_env {| yt_manager := advanced (yt_manager s) 1;
                              clients := clients s ++ [key0]; env := e1 |} (backoff err e1))
                 (Some err)) as (used & r & e' & Hc & Hl & _ & Hrun).
    { unfold with_env. simpl yt_manager. apply advanced_in_range. lia. }
    rewrite Hrun. clear Hrun.
    unfold with_env in *. simpl in Hc. rewrite HL in Hc.
    destruct (retry_chain_nonempty _ _ _ _ _ _ _ Hc) as (key1 & Hk1 & Hh).
    exists key1, used, r, e'. split; [exact Hk1|]. split; [exact Hh|]. split; [exact Hc|].
    split; [lia|]. simpl yt_manager; simpl clients.
    rewrite advanced_advanced, <- app_assoc. reflexivity.
Qed.

Lemma get_client_round_robin_closure_witness :
  let s := state_of ["K1"; "K2"; "K3"] 1 quiet_env in
  exists granted s',
    grants 3 s = (Ok granted, s')
    /\ length granted = 3%nat
    /\ current_key_index (yt_manager s') = 1%nat
    /\ api_keys (yt_manager s') = ["K1"; "K2"; "K3"].
Proof.
  intros s. apply (get_client_round_robin_closure s); simpl; lia.
Defined.

Lemma api_request_rotates_on_quota_witness :
  let s := state_of ["K1"; "K2"] 0 quiet_env in
  let func := scripted [Raise (HttpError (Some 429)); Ok 7] in
  fst (api_request func s) = Ok 7
  /\ clients (snd (api_request func s)) = ["K1"; "K2"].
Proof.
  intros s func.
  assert (Hi : (current_key_index (yt_manager s) < length (api_keys (yt_manager s)))%nat)
    by (simpl; lia).
  destruct (api_request_rotates_on_quota func s Hi) as [_ H].
  erewrite H; [split; reflexivity|reflexivity..].
Defined.

Lemma api_request_retries_on_next_key_witness :
  let s := state_of ["K1"; "K2"] 0 quiet_env in
  let func := scripted [Raise (Exception "timed out"); Ok 7] in
  exists key1 used,
    api_keys (yt_manager s) !! 1%nat = Some key1
    /\ head used = Some key1
    /\ clients (snd (api_request func s)) = "K1" :: used.
Proof.
  intros s func.
  destruct (api_request_retries_on_next_key func s "K1" (Exception "timed out")
              (set_api_calls 1 quiet_env) eq_refl eq_refl eq_refl) as (_ & _ & H).
  destruct H as (key1 & used & r & e' & Hk & Hh & _ & _ & Hrun); [simpl; lia|].
  exists key1, used. rewrite Hrun. split; [exact Hk|]. split; [exact Hh|reflexivity].
Defined.

(** C3 as stated fails: with two keys, a request whose first call raises a
    plain exception is retried with the second key. *)
Lemma transient_retry_changes_key :
  ~ same_key_retry (scripted [Raise (Exception "timed out"); Ok 7])
      (state_of ["K1"; "K2"] 0 quiet_env).
Proof.
  intros H. specialize (H "K1" eq_refl). vm_compute in H.
  inversion H as [|? ? _ H2]; subst. inversion H2 as [|? ? Hk _]; subst. discriminate Hk.
Qed.

(** ** Email extractor *)

Lemma span_take (p : ascii -> bool) (s : list ascii) : forall j : nat,
  (j <= span p s)%nat -> Forall (fun c => p c = true) (take j s) /\ (j <= length s)%nat.
Proof.
  induction s as [|c s IH]; intros j Hj; simpl in *.
  - assert (j = 0%nat) as -> by lia. split; [constructor|lia].
  - destruct j as [|j]; [split; [constructor|lia]|].
    destruct (p c) eqn:Hc; [|lia].
    destruct (IH j) as [H1 H2]; [lia|]. split; [by constructor|lia].
Qed.

Lemma try_down_some (rest : nat -> option nat) (lo : nat) : forall k n : nat,
  try_down k lo rest = Some n ->
  exists j m, (lo <= j <= k)%nat /\ rest j = Some m /\ n = (j + m)%nat.
Proof.
  induction k as [|k IH]; intros n H; simpl in H.
  - destruct (0 <? lo)%nat eqn:Hlt; [discriminate|]. apply Nat.ltb_ge in Hlt.
    destruct (rest 0%nat) as [m|] eqn:Hr; [|discriminate].
    injection H as <-. exists 0%nat, m. repeat split; [lia|lia|exact Hr].
  - destruct (S k <? lo)%nat eqn:Hlt; [discriminate|]. apply Nat.ltb_ge in Hlt.
    destruct (rest (S k)) as [m|] eqn:Hr.
    + injection H as <-. exists (S k), m. repeat split; [lia|lia|exact Hr].
    + destruct (IH n H) as (j & m & Hj & Hm & ->). exists j, m. repeat split; [lia|lia|exact Hm].
Qed.

Lemma match_here_sound (re : list Atom) : forall (s : list ascii) (n : nat),
  match_here re s = Some n -> (n <= length s)%nat /\ matches re (take n s).
Proof.
  induction re as [|a re IH]; intros s n H; simpl in H.
  - injection H as <-. split; [lia|]. simpl. by rewrite take_0.
  - apply try_down_some in H as (j & m & [Hlo Hhi] & Hm & ->).
    apply IH in Hm as [Hlen Hrest].
    assert (Hspan : (j <= span (cls a) s)%nat) by (destruct (rmax a); lia).
    destruct (span_take _ _ _ Hspan) as [Hcls Hjs].
    rewrite length_drop in Hlen. split; [lia|].
    simpl. exists (take j s), (take m (drop j s)).
    split; [by rewrite take_take_drop|]. split; [exact Hcls|].
    rewrite length_take. split; [lia|]. split; [|exact Hrest].
    intros mx Hmx. rewrite Hmx in Hhi. lia.
Qed.

Lemma findall_from_sound (re : list Atom) (e : string) : forall (s : list ascii) (skip : nat),
  e ∈ findall_from re skip s ->
  exists pre chars post,
    s = (pre ++ chars ++ post)%list /\ e = string_of_list_ascii chars /\ matches re chars.
Proof.
  induction s as [|c s IH]; intros skip H; simpl in H.
  - by apply elem_of_nil in H.
  - assert (Hind : forall k, e ∈ findall_from re k s ->
              exists pre chars post,
                c :: s = (pre ++ chars ++ post)%list
                /\ e = string_of_list_ascii chars /\ matches re chars).
    { intros k Hk. destruct (IH k Hk) as (pre & chars & post & -> & He & Hm).
      exists (c :: pre), chars, post. eauto. }
    destruct skip as [|k]; [|eauto].
    destruct (match_here re (c :: s)) as [len|] eqn:Hm; [|eauto].
    apply elem_of_cons in H as [->|H]; [|eauto].
    apply match_here_sound in Hm as [_ Hm].
    exists [], (take len (c :: s)), (drop len (c :: s)).
    split; [by rewrite app_nil_l, take_drop|]. split; [reflexivity|exact Hm].
Qed.

Lemma once_literal (x : ascii) (s : list ascii) :
  Forall (fun c => cls (once (literal x)) c = true) s ->
  (rmin (once (literal x)) <= length s)%nat ->
  (forall m, rmax (once (literal x)) = Some m -> (length s <= m)%nat) ->
  s = [x].
Proof.
  simpl. intros Hall Hmin Hmax. specialize (Hmax 1%nat eq_refl).
  destruct s as [|c [|c' s]]; simpl in *; try lia.
  apply Forall_cons in Hall as [Hc _]. unfold literal in Hc.
  apply bool_decide_eq_true in Hc. by subst.
Qed.

Lemma email_re_shape (chars : list ascii) :
  matches EMAIL_RE chars -> email_shape (string_of_list_ascii chars).
Proof.
  unfold EMAIL_RE. simpl matches.
  intros (loc & r1 & -> & Hloc & Hlmin & _ &
          at_ & r2 & -> & Hat & Hamin & Hamax &
          dom & r3 & -> & Hdom & Hdmin & _ &
          dot & r4 & -> & Hdot & Hdotmin & Hdotmax &
          tld & r5 & -> & Htld & Htmin & _ & ->).
  apply once_literal in Hat as ->; [|done..].
  apply once_literal in Hdot as ->; [|done..].
  exists loc, dom, tld. rewrite list_ascii_of_string_of_list_ascii, app_nil_r.
  simpl in *. repeat split; assumption.
Qed.

(** C9. Whatever the text (absent, empty or not), [extract_emails] returns a
    list without duplicates whose elements are substrings of the text of the
    email shape, and the empty list for an absent or empty text. *)
Theorem extract_emails_shape_unique (text : option string) :
  NoDup (extract_emails text)
  /\ (forall e, e ∈ extract_emails text -> email_shape e /\ occurs_in e (default "" text))
  /\ extract_emails None = []
  /\ extract_emails (Some "") = [].
Proof.
  split; [unfold extract_emails; apply NoDup_elements|]. split; [|split; reflexivity].
  intros e He. unfold extract_emails in He.
  apply elem_of_elements, elem_of_list_to_set in He.
  apply findall_from_sound in He as (pre & chars & post & Htext & -> & Hm).
  split; [by apply email_re_shape|].
  exists pre, post. by rewrite list_ascii_of_string_of_list_ascii.
Qed.

Lemma extract_emails_shape_unique_witness :
  let text := Some "mail bob@site.org or bob@site.org, not x@y" in
  extract_emails text = ["bob@site.org"]
  /\ email_shape "bob@site.org"
  /\ occurs_in "bob@site.org" "mail bob@site.org or bob@site.org, not x@y".
Proof.
  intros text.
  assert (Hrun : extract_emails text = ["bob@site.org"]) by (vm_compute; reflexivity).
  split; [exact Hrun|].
  apply (proj1 (proj2 (extract_emails_shape_unique text)) "bob@site.org").
  rewrite Hrun. apply list_elem_of_here.
Defined.

(** ** Checkpoint store *)

(** C8 as stated fails: a checkpoint file that exists but cannot be opened
    for lack of permission makes [load_checkpoint] raise. *)
Lemma load_checkpoint_raises_on_locked_file : ~ load_never_raises locked_file_env.
Proof. intros [c Hc]. vm_compute in Hc. discriminate Hc. Qed.

(** C8 (amended). [load_checkpoint] returns the empty object, which reads as
    no saved position and a count of 0 for every keyword, without logging
    when the file is absent, and after logging a warning when reading it
    raises [FileNotFoundError] or [JSONDecodeError]; any other error raised
    by reading the file reaches the caller; a file that decodes is returned
    as it is. *)
Theorem load_checkpoint_outcomes (e : Env) :
  (checkpoint_file e = Missing -> load_checkpoint e = (Ok empty_checkpoint, e))
  /\ (forall err, checkpoint_file e = Fails err -> load_catches err = true ->
        load_checkpoint e = (Ok empty_checkpoint, snd (log_callback (load_warning err) e)))
  /\ (forall err, checkpoint_file e = Fails err -> load_catches err = false ->
        load_checkpoint e = (Raise err, e))
  /\ (forall c, checkpoint_file e = Holds c -> load_checkpoint e = (Ok c, e))
  /\ (forall kw, saved_position empty_checkpoint kw = None /\ saved_count empty_checkpoint kw = 0).
Proof.
  unfold load_checkpoint, bind, get. repeat split.
  - intros ->. reflexivity.
  - intros err -> Hc. rewrite Hc. reflexivity.
  - intros err -> Hc. rewrite Hc. reflexivity.
  - intros c ->. reflexivity.
Qed.

Lemma load_checkpoint_outcomes_witness :
  load_checkpoint quiet_env = (Ok empty_checkpoint, quiet_env)
  /\ fst (load_checkpoint (set_checkpoint_file (Fails JSONDecodeError) quiet_env)) = Ok empty_checkpoint
  /\ log (snd (load_checkpoint (set_checkpoint_file (Fails JSONDecodeError) quiet_env)))
     = [load_warning JSONDecodeError]
  /\ fst (load_checkpoint locked_file_env)
     = Raise (OSError "[Errno 13] Permission denied: 'youtube_checkpoint.json'").
Proof.
  split; [apply (proj1 (load_checkpoint_outcomes quiet_env)); reflexivity|].
  destruct (load_checkpoint_outcomes (set_checkpoint_file (Fails JSONDecodeError) quiet_env))
    as (_ & H & _).
  rewrite (H JSONDecodeError eq_refl eq_refl).
  destruct (load_checkpoint_outcomes locked_file_env) as (_ & _ & H' & _).
  rewrite (H' _ eq_refl eq_refl). repeat split.
Defined.

(** ** Frame properties of the API client *)

Lemma frame_refl (e : Env) : frame e e.
Proof. by repeat split. Qed.

Lemma frame_trans (e1 e2 e3 : Env) : frame e1 e2 -> frame e2 e3 -> frame e1 e3.
Proof. unfold frame. intros (?&?&?&?&?) (?&?&?&?&?). repeat split; congruence. Qed.

Lemma frame_backoff (err : exn) (e : Env) : frame e (backoff err e).
Proof. destruct err; by repeat split. Qed.

Lemma frame_log (line : string) (e : Env) : frame e (snd (log_callback line e)).
Proof. by repeat split. Qed.

Lemma frame_sleep (ms : N) (e : Env) : frame e (snd (sleep ms e)).
Proof. by repeat split. Qed.

Lemma get_client_fail (s : State) :
  api_keys (yt_manager s) !! current_key_index (yt_manager s) = None ->
  get_client s = (Raise IndexError, s).
Proof. intros H. unfold get_client. by rewrite H. Qed.

Lemma api_request_loop_frame {A} (func : string -> IO A) :
  (forall key e, frame e (snd (func key e))) ->
  forall (n : nat) (last : option exn) (s : State),
    frame (env s) (env (snd (api_request_loop func n last s))).
Proof.
  intros Hf. induction n as [|n IH]; intros last s.
  - apply frame_refl.
  - destruct (api_keys (yt_manager s) !! current_key_index (yt_manager s)) as [key|] eqn:Hk.
    + destruct (func key (env s)) as [r e1] eqn:Hr.
      rewrite (api_request_loop_step func n last s key r e1 Hk Hr). cbv zeta.
      pose proof (Hf key (env s)) as H1. rewrite Hr in H1. simpl in H1.
      destruct r as [v|err]; [exact H1|].
      destruct (retryable err); [|exact H1].
      eapply frame_trans; [|apply IH]. simpl.
      eapply frame_trans; [exact H1|apply frame_backoff].
    + simpl. unfold bind at 1. rewrite (get_client_fail s Hk). apply frame_refl.
Qed.

Lemma api_request_frame {A} (func : string -> IO A) (s : State) :
  (forall key e, frame e (snd (func key e))) ->
  frame (env s) (env (snd (api_request func s))).
Proof. intros Hf. unfold api_request, bind, get. by apply api_request_loop_frame. Qed.

Lemma search_request_frame yt q tok key e : frame e (snd (search_request yt q tok key e)).
Proof. by repeat split. Qed.

Lemma channels_request_frame yt part id key e : frame e (snd (channels_request yt part id key e)).
Proof. by repeat split. Qed.

(** ** Running the monad backwards *)

Lemma bind_inv {S A B} (m : M S A) (k : A -> M S B) (s s' : S) (r : result B) :
  bind m k s = (r, s') ->
  (exists a s1, m s = (Ok a, s1) /\ k a s1 = (r, s'))
  \/ (exists e, m s = (Raise e, s') /\ r = Raise e).
Proof.
  unfold bind. destruct (m s) as [[a|e] s1]; intros H.
  - left. eauto.
  - right. injection H as <- <-. eauto.
Qed.

Lemma lift_inv {A} (m : IO A) (s s' : State) (r : result A) :
  lift m s = (r, s') -> exists e', m (env s) = (r, e') /\ s' = with_env s e'.
Proof.
  unfold lift. destruct (m (env s)) as [r0 e'] eqn:Hm. intros [= <- <-]. eauto.
Qed.

Lemma attempt_inv {S A} (m : M S A) (s s' : S) (r : result (result A)) :
  attempt m s = (r, s') -> exists r0, m s = (r0, s') /\ r = Ok r0.
Proof. unfold attempt. destruct (m s) as [r0 s1]. intros [= <- <-]. eauto. Qed.

Lemma api_request_frame_run {A} (func : string -> IO A) (s s' : State) (r : result A) :
  (forall key e, frame e (snd (func key e))) ->
  api_request func s = (r, s') -> frame (env s) (env s').
Proof. intros Hf H. pose proof (api_request_frame func s Hf) as HF. by rewrite H in HF. Qed.

Lemma run_pool_frame yt (cids : list string) : forall (s s' : State) r,
  run_pool yt cids s = (r, s') ->
  frame (env s) (env s') /\ forall futures, r = Ok futures -> map fst futures = cids.
Proof.
  induction cids as [|cid cids IH]; intros s s' r H; simpl in H.
  - injection H as <- <-. split; [apply frame_refl|]. by intros ? [= <-].
  - apply bind_inv in H as [(out & s1 & H1 & H)|(e & H1 & ->)].
    2:{ apply attempt_inv in H1 as (? & _ & [=]). }
    apply attempt_inv in H1 as (r0 & H1 & [= <-]).
    apply api_request_frame_run in H1; [|apply channels_request_frame].
    apply bind_inv in H as [(fs & s2 & H2 & H)|(e & H2 & ->)].
    + injection H as <- <-. apply IH in H2 as [H2 H3].
      split; [by eapply frame_trans|]. intros ? [= <-]. simpl. f_equal. by apply H3.
    + apply IH in H2 as [H2 _]. split; [by eapply frame_trans|]. by intros ? [=].
Qed.

(** ** Candidates and their index *)

Lemma select_candidates_fresh (params : KeywordParams) (existing : gset string)
    (items : list Channel) : forall acc cs : list Candidate,
  select_candidates params existing items acc = Ok cs ->
  Forall (fresh_candidate existing) acc ->
  Forall (fresh_candidate existing) cs.
Proof.
  induction items as [|ch items IH]; intros acc cs H Hacc; simpl in H.
  - by injection H as <-.
  - destruct (negb (truthy (ch_id ch)) || bool_decide (channel_url (ch_id ch) ∈ existing))
      eqn:Hskip; [by eapply IH|].
    apply orb_false_iff in Hskip as [Hid Hnew].
    apply negb_false_iff in Hid. apply bool_decide_eq_false in Hnew.
    destruct (py_int (ch_subscriberCount ch)) as [subs|e]; [|discriminate].
    destruct (negb _); [by eapply IH|].
    destruct (negb _); [by eapply IH|].
    destruct (extract_emails (ch_description ch)) as [|em ems] eqn:Hem; [by eapply IH|].
    eapply IH; [exact H|]. apply Forall_app. split; [exact Hacc|].
    apply Forall_singleton. destruct (ch_id ch) as [id|]; [|discriminate].
    split; [reflexivity|exact Hnew].
Qed.

Lemma dict_set_keys {V} (k : string) (v : V) (d : list (string * V)) :
  forall k', k' ∈ map fst (dict_set k v d) <-> k' = k \/ k' ∈ map fst d.
Proof.
  induction d as [|[k0 v0] d IH]; intros k'; simpl.
  - rewrite list_elem_of_singleton.
    split; [auto|intros [?|Hn]; [done|by apply elem_of_nil in Hn]].
  - destruct (bool_decide (k0 = k)) eqn:Hk; simpl; rewrite !elem_of_cons.
    + apply bool_decide_eq_true in Hk. subst. tauto.
    + rewrite IH. tauto.
Qed.

Lemma dict_set_NoDup {V} (k : string) (v : V) (d : list (string * V)) :
  NoDup (map fst d) -> NoDup (map fst (dict_set k v d)).
Proof.
  induction d as [|[k0 v0] d IH]; simpl; intros Hnd.
  - apply NoDup_singleton.
  - apply NoDup_cons in Hnd as [H1 H2].
    destruct (bool_decide (k0 = k)) eqn:Hk; simpl; apply NoDup_cons.
    + apply bool_decide_eq_true in Hk. by subst.
    + apply bool_decide_eq_false in Hk.
      split; [|by apply IH]. rewrite dict_set_keys. intros [->|?]; done.
Qed.

Lemma dict_set_Forall {V} (Q : string * V -> Prop) (k : string) (v : V) (d : list (string * V)) :
  Q (k, v) -> Forall Q d -> Forall Q (dict_set k v d).
Proof.
  intros Hq. induction d as [|[k0 v0] d IH]; simpl; intros Hd.
  - by apply Forall_singleton.
  - apply Forall_cons in Hd as [H1 H2].
    destruct (bool_decide (k0 = k)); apply Forall_cons; auto.
Qed.

Lemma dict_get_elem {V} (k : string) (d : list (string * V)) (v : V) :
  dict_get k d = Some v -> (k, v) ∈ d.
Proof.
  induction d as [|[k0 v0] d IH]; simpl; [done|].
  destruct (bool_decide (k0 = k)) eqn:Hk.
  - apply bool_decide_eq_true in Hk. subst. intros [= ->]. apply list_elem_of_here.
  - intros Hg. apply list_elem_of_further. auto.
Qed.

Lemma index_by_id_ok (existing : gset string) (cs : list Candidate) :
  Forall (fresh_candidate existing) cs ->
  NoDup (map fst (index_by_id cs)) /\ Forall (indexed existing) (index_by_id cs).
Proof.
  unfold index_by_id.
  assert (H : forall d : list (string * Candidate),
             NoDup (map fst d) -> Forall (indexed existing) d ->
             Forall (fresh_candidate existing) cs ->
             NoDup (map fst (fold_left (fun d c => dict_set (cand_id c) c d) cs d))
             /\ Forall (indexed existing) (fold_left (fun d c => dict_set (cand_id c) c d) cs d)).
  { induction cs as [|c cs IH]; intros d Hd Hq Hcs; simpl; [done|].
    apply Forall_cons in Hcs as [Hc Hcs].
    apply IH; [by apply dict_set_NoDup| |exact Hcs].
    apply dict_set_Forall; [|exact Hq]. by split. }
  intros Hcs. apply H; [apply NoDup_nil_2|apply Forall_nil_2|exact Hcs].
Qed.

(** ** The row-building loop *)

Lemma collect_rows_spec stop (kw : string) (dict : list (string * Candidate)) :
  forall (completed : list (string * result DetailsResult)) rows n s r s',
    collect_rows stop kw dict completed rows n s = (r, s') ->
    exists (finished : list string) (cs : list Candidate),
      finished `prefix_of` map fst completed
      /\ Forall2 (fun cid c => dict_get cid dict = Some c) finished cs
      /\ existing_channels (env s') = list_to_set (map cand_url cs) ∪ existing_channels (env s)
      /\ same_store (env s) (env s')
      /\ forall rows' n', r = Ok (rows', n') -> rows' = (rows ++ rows_for kw cs)%list.
Proof.
  induction completed as [|[cid outcome] rest IH]; intros rows n s r s' H.
  - injection H as <- <-. exists [], []. split; [apply prefix_nil|]. split; [constructor|].
    split; [simpl; by rewrite (left_id_L ∅ (∪))|]. split; [by repeat split|].
    intros ? ? [= <- <-]. simpl. by rewrite app_nil_r.
  - simpl in H. unfold bind at 1, lift at 1, should_stop in H. simpl in H.
    assert (Hnone : forall st : State,
               existing_channels (env st) = existing_channels (env s) ->
               same_store (env s) (env st) ->
               forall r0 : result (list (list string) * Z),
               (forall rows' n', r0 = Ok (rows', n') -> rows' = rows) ->
               exists (finished : list string) (cs : list Candidate),
                 finished `prefix_of` map fst ((cid, outcome) :: rest)
                 /\ Forall2 (fun cid c => dict_get cid dict = Some c) finished cs
                 /\ existing_channels (env st)
                    = list_to_set (map cand_url cs) ∪ existing_channels (env s)
                 /\ same_store (env s) (env st)
                 /\ forall rows' n', r0 = Ok (rows', n') -> rows' = (rows ++ rows_for kw cs)%list).
    { intros st He Hs r0 Hr. exists [], []. split; [apply prefix_nil|]. split; [constructor|].
      split; [simpl; by rewrite (left_id_L ∅ (∪))|]. split; [exact Hs|].
      intros rows' n' Hrn. simpl. rewrite app_nil_r. eauto. }
    destruct (stop (polls (env s))).
    { injection H as <- <-. apply Hnone; [done|by repeat split|by intros ? ? [= <- <-]]. }
    destruct outcome as [resp|e].
    2:{ injection H as <- <-. apply Hnone; [done|by repeat split|by intros ? ? [=]]. }
    destruct (dict_get cid dict) as [c|] eqn:Hget.
    2:{ injection H as <- <-. apply Hnone; [done|by repeat split|by intros ? ? [=]]. }
    unfold bind at 1, lift at 1, modify in H. simpl in H.
    unfold bind at 1, lift at 1, log_callback, modify in H. simpl in H.
    destruct (config.MAX_VALID_PER_KEYWORD <=? n + 1).
    + injection H as <- <-. exists [cid], [c].
      split; [by apply prefix_cons, prefix_nil|]. split; [by repeat constructor|].
      split; [simpl; set_solver|]. split; [by repeat split|].
      by intros ? ? [= <- <-].
    + apply IH in H as (finished & cs & Hpre & Hall & Hex & Hst & Hrows).
      exists (cid :: finished), (c :: cs).
      split; [by apply prefix_cons|]. split; [by constructor|].
      split; [rewrite Hex; simpl; set_solver|]. split; [exact Hst|].
      intros rows' n' Hr. rewrite (Hrows rows' n' Hr), <- app_assoc. reflexivity.
Qed.

Lemma same_store_trans (e1 e2 e3 : Env) : same_store e1 e2 -> same_store e2 e3 -> same_store e1 e3.
Proof. unfold same_store. intros (?&?&?&?) (?&?&?&?). repeat split; congruence. Qed.

Lemma frame_same_store (e e' : Env) : frame e e' -> same_store e e'.
Proof. unfold frame, same_store. tauto. Qed.

Lemma channel_url_inj (a b : string) : channel_url (Some a) = channel_url (Some b) -> a = b.
Proof. unfold channel_url. simpl. apply (String.app_inj "https://www.youtube.com/channel/"). Qed.

Lemma as_completed_keys yt {A} (t0 : nat) (futures : list (string * A)) :
  map fst (as_completed yt t0 futures) ≡ₚ map fst futures.
Proof. unfold as_completed. apply fmap_Permutation, merge_sort_Permutation. Qed.

Lemma looked_up_candidates (existing : gset string) (dict : list (string * Candidate)) :
  Forall (indexed existing) dict ->
  forall (finished : list string) (cs : list Candidate),
    Forall2 (fun cid c => dict_get cid dict = Some c) finished cs ->
    map cand_id cs = finished /\ Forall (fresh_candidate existing) cs.
Proof.
  intros Hd finished cs H. induction H as [|cid c finished cs Hget _ [IH1 IH2]]; [done|].
  apply dict_get_elem in Hget. rewrite Forall_forall in Hd. destruct (Hd _ Hget) as [Hid Hf].
  simpl in *. split; [by f_equal|by constructor].
Qed.

Lemma build_rows_spec yt stop (kw : string) (candidates : list Candidate) (n : Z)
    (s s' : State) r :
  Forall (fresh_candidate (existing_channels (env s))) candidates ->
  build_rows yt stop kw candidates n s = (r, s') ->
  exists cs : list Candidate,
    NoDup (map cand_url cs)
    /\ (forall c, c ∈ cs -> cand_url c ∉ existing_channels (env s))
    /\ existing_channels (env s') = list_to_set (map cand_url cs) ∪ existing_channels (env s)
    /\ same_store (env s) (env s')
    /\ forall rows n', r = Ok (rows, n') -> rows = rows_for kw cs.
Proof.
  intros Hfresh H. unfold build_rows in H.
  destruct candidates as [|c0 cands].
  { injection H as <- <-. exists []. split; [constructor|]. split; [by intros ? ?%elem_of_nil|].
    split; [simpl; by rewrite (left_id_L ∅ (∪))|]. split; [by repeat split|].
    by intros ? ? [= <- <-]. }
  destruct (index_by_id_ok _ _ Hfresh) as [Hnd Hidx].
  set (dict := index_by_id (c0 :: cands)) in *. clearbody dict.
  apply bind_inv in H as [(s0 & s1 & [= <- <-] & H)|(? & [=] & _)].
  apply bind_inv in H as [(futures & s2 & Hpool & H)|(e & Hpool & ->)].
  2:{ apply run_pool_frame in Hpool as [Hf _]. exists []. split; [constructor|].
      split; [by intros ? ?%elem_of_nil|].
      split; [simpl; rewrite (left_id_L ∅ (∪)); apply Hf|].
      split; [by apply frame_same_store|]. by intros ? ? [=]. }
  apply run_pool_frame in Hpool as [Hf Hkeys]. specialize (Hkeys _ eq_refl).
  apply collect_rows_spec in H as (finished & cs & Hpre & Hall & Hex & Hst & Hrows).
  destruct (looked_up_candidates _ _ Hidx _ _ Hall) as [Hids Hcs].
  assert (Hfin : NoDup finished).
  { destruct Hpre as [k Hk].
    pose proof (as_completed_keys yt (api_calls (env s)) futures) as Hperm.
    rewrite Hk, Hkeys in Hperm. rewrite <- Hperm in Hnd. by apply NoDup_app in Hnd as [? _]. }
  exists cs. split.
  { rewrite <- Hids in Hfin. clear -Hfin Hcs.
    induction cs as [|c cs IH]; simpl in *; [constructor|].
    apply NoDup_cons in Hfin as [Hc Hfin]. apply Forall_cons in Hcs as [[Hu _] Hcs].
    apply NoDup_cons. split; [|by apply IH].
    intros Hin. apply Hc. apply list_elem_of_fmap in Hin as (c' & Heq & Hc').
    rewrite Forall_forall in Hcs. destruct (Hcs _ Hc') as [Hu' _].
    rewrite Hu, Hu' in Heq. apply channel_url_inj in Heq. rewrite Heq.
    by apply list_elem_of_fmap_2. }
  split.
  { intros c Hc. rewrite Forall_forall in Hcs. by destruct (Hcs _ Hc). }
  destruct Hf as (? & ? & ? & Hex0 & ?).
  split; [by rewrite Hex, Hex0|].
  split; [|by intros ? ? ?; simpl; eauto].
  eapply same_store_trans; [|exact Hst]. by repeat split.
Qed.

(** ** What one keyword does to the world *)

Lemma agree_off_refl (kw : string) (c : Checkpoint) : agree_off kw c c.
Proof. by intros k _. Qed.

Lemma agree_off_trans (kw : string) (c1 c2 c3 : Checkpoint) :
  agree_off kw c1 c2 -> agree_off kw c2 c3 -> agree_off kw c1 c3.
Proof.
  intros H1 H2 k Hk. destruct (H1 k Hk) as [? ?], (H2 k Hk) as [? ?]. split; congruence.
Qed.

Lemma agree_off_set (kw : string) (tok : option string) (n : Z) (c : Checkpoint) :
  agree_off kw c (set_count kw n (set_position kw tok c)).
Proof.
  intros k Hk. unfold saved_position, saved_count, set_count, set_position. simpl.
  by rewrite !lookup_insert_ne.
Qed.

Lemma grows_refl (kw : string) (e : Env) : grows kw e e.
Proof.
  split; [done|]. split.
  { exists []. split; [by rewrite app_nil_r|]. split; [constructor|]. by intros ? ?%elem_of_nil. }
  split; [done|]. split; [apply agree_off_refl|by left].
Qed.

Lemma frame_grows (kw : string) (e e' : Env) : frame e e' -> grows kw e e'.
Proof.
  intros (Hf & Hw & Hfile & Hex & Hck). split; [done|]. split.
  { exists []. unfold rows_of. rewrite Hw. split; [by rewrite app_nil_r|].
    split; [constructor|]. by intros ? ?%elem_of_nil. }
  split; [by rewrite Hex|]. split; [rewrite Hck; apply agree_off_refl|by left].
Qed.

Lemma grows_trans (kw : string) (e1 e2 e3 : Env) :
  grows kw e1 e2 -> grows kw e2 e3 -> grows kw e1 e3.
Proof.
  intros (Hf1 & (cs1 & Hr1 & Hn1 & Hc1) & Hs1 & Ha1 & Hfile1)
         (Hf2 & (cs2 & Hr2 & Hn2 & Hc2) & Hs2 & Ha2 & Hfile2).
  split; [congruence|]. split.
  { exists (cs1 ++ cs2)%list. split.
    { rewrite Hr2, Hr1. unfold rows_for. by rewrite map_app, app_assoc. }
    split.
    { rewrite map_app. apply NoDup_app. split; [exact Hn1|]. split; [|exact Hn2].
      intros u Hu1 Hu2.
      apply list_elem_of_fmap in Hu1 as (c1 & -> & Hc1').
      apply list_elem_of_fmap in Hu2 as (c2 & Heq & Hc2').
      destruct (Hc1 _ Hc1') as [_ Hin]. destruct (Hc2 _ Hc2') as [Hout _].
      apply Hout. by rewrite <- Heq. }
    intros c Hc. apply elem_of_app in Hc as [Hc|Hc].
    - destruct (Hc1 _ Hc) as [? ?]. split; [done|]. by apply Hs2.
    - destruct (Hc2 _ Hc) as [Hout ?]. split; [|done]. intros Hin. apply Hout. by apply Hs1. }
  split; [by etrans|]. split; [by eapply agree_off_trans|].
  destruct Hfile2 as [->|(ck & -> & Hck)].
  - destruct Hfile1 as [->|(ck & -> & Hck)]; [by left|right; eauto].
  - right. exists ck. split; [done|]. by eapply agree_off_trans.
Qed.

Lemma lift_frame {A} (m : IO A) (s s' : State) (r : result A) :
  (forall e, frame e (snd (m e))) -> lift m s = (r, s') -> frame (env s) (env s').
Proof.
  intros Hm H. apply lift_inv in H as (e' & He & ->). simpl.
  specialize (Hm (env s)). by rewrite He in Hm.
Qed.

Lemma should_stop_frame stop (e : Env) : frame e (snd (should_stop stop e)).
Proof. by repeat split. Qed.

Lemma lift_modify_run (f : Env -> Env) (s s' : State) (r : result unit) :
  lift (modify f) s = (r, s') -> r = Ok tt /\ s' = with_env s (f (env s)).
Proof. unfold lift, modify. simpl. by intros [= <- <-]. Qed.

(** The block [if rows_to_append: worksheet.append_rows(rows_to_append, ...)]. *)
Lemma append_block_run (rows : list (list string)) (s s' : State) (r : result unit) :
  match rows with
  | [] => ret tt
  | _ => lift (append_rows rows)
  end s = (r, s') ->
  r = Ok tt
  /\ rows_of (env s') = (rows_of (env s) ++ rows)%list
  /\ sheets_fault (env s') = sheets_fault (env s)
  /\ checkpoint_file (env s') = checkpoint_file (env s)
  /\ existing_channels (env s') = existing_channels (env s)
  /\ checkpoint (env s') = checkpoint (env s).
Proof.
  destruct rows as [|row rows].
  - intros [= <- <-]. by rewrite app_nil_r.
  - unfold append_rows. intros H. apply lift_modify_run in H as [-> ->]. by repeat split.
Qed.

Lemma stored_grows (kw : string) (e e' : Env) :
  same_store e e' -> existing_channels e ⊆ existing_channels e' -> grows kw e e'.
Proof.
  intros (Hf & Hw & Hfile & Hck) Hex. split; [done|]. split.
  { exists []. unfold rows_of. rewrite Hw. split; [by rewrite app_nil_r|].
    split; [constructor|]. by intros ? ?%elem_of_nil. }
  split; [done|]. split; [rewrite Hck; apply agree_off_refl|by left].
Qed.

Ltac by_frame :=
  first [ eapply lift_frame; [|eassumption]
        | eapply api_request_frame_run; [|eassumption] ];
  intros;
  first [ apply should_stop_frame | apply frame_log | apply frame_sleep
        | apply search_request_frame | apply channels_request_frame ].

Ltac frame_step := eapply grows_trans; [apply frame_grows; by_frame|].

Lemma process_pages_grows yt stop (params : KeywordParams) :
  forall (n : nat) (tok : option string) (cnt : Z) (s s' : State) (r : result unit),
    process_pages yt stop n params tok cnt s = (r, s') ->
    grows (keyword params) (env s) (env s').
Proof.
  induction n as [|n IH]; intros tok cnt s s' r H; simpl in H.
  { injection H as <- <-. apply grows_refl. }
  destruct (negb (cnt <? config.MAX_VALID_PER_KEYWORD)).
  { injection H as <- <-. apply grows_refl. }
  apply bind_inv in H as [(stopb & s0 & Hstop & H)|(e & Hstop & ->)].
  2:{ apply frame_grows. by_frame. }
  frame_step. clear Hstop s.
  destruct stopb.
  { apply frame_grows. by_frame. }
  apply bind_inv in H as [(sr & s1 & Hreq & H)|(e & Hreq & ->)].
  2:{ apply frame_grows. by_frame. }
  frame_step. clear Hreq s0.
  destruct (channel_ids_of (sr_items sr)) as [[|cid ids]|e].
  { apply frame_grows. by_frame. }
  2:{ injection H as <- <-. apply grows_refl. }
  apply bind_inv in H as [(dr & s2 & Hreq & H)|(e & Hreq & ->)].
  2:{ apply frame_grows. by_frame. }
  frame_step. clear Hreq s1.
  apply bind_inv in H as [(s2' & s2'' & [= <- <-] & H)|(? & [=] & _)].
  destruct (select_candidates params (existing_channels (env s2)) (dr_items dr) [])
    as [cands|e] eqn:Hsel.
  2:{ injection H as <- <-. apply grows_refl. }
  apply select_candidates_fresh in Hsel; [|constructor].
  apply bind_inv in H as [([rows added] & s3 & Hb & H)|(e & Hb & ->)].
  2:{ apply build_rows_spec in Hb as (cs & _ & _ & Hex & Hst & _); [|exact Hsel].
      apply stored_grows; [exact Hst|]. rewrite Hex. apply union_subseteq_r. }
  apply build_rows_spec in Hb as (cs & Hnd & Hout & Hex & Hst & Hrows); [|exact Hsel].
  specialize (Hrows _ _ eq_refl). subst rows. simpl fst in H; simpl snd in H.
  apply bind_inv in H as [(u & s4 & Happ & H)|(e & Happ & ->)].
  2:{ by apply append_block_run in Happ as [[=] _]. }
  apply append_block_run in Happ as (_ & Hrows4 & Hf4 & Hfile4 & Hex4 & Hck4).
  apply bind_inv in H as [(u' & s5 & Hmod & H)|(e & Hmod & ->)].
  2:{ by apply lift_modify_run in Hmod as [[=] _]. }
  apply lift_modify_run in Hmod as [_ ->].
  apply bind_inv in H as [(s5' & s5'' & [= <- <-] & H)|(? & [=] & _)].
  apply bind_inv in H as [(u'' & s6 & Hsave & H)|(e & Hsave & ->)].
  2:{ by apply lift_modify_run in Hsave as [[=] _]. }
  apply lift_modify_run in Hsave as [_ ->].
  destruct Hst as (Hf3 & Hw3 & Hfile3 & Hck3).
  eapply grows_trans.
  2:{ destruct (negb (truthy (nextPageToken sr))).
      - apply frame_grows. by_frame.
      - apply bind_inv in H as [(u3 & s7 & Hsl & H)|(e & Hsl & ->)].
        + frame_step. eapply IH. exact H.
        + apply frame_grows. by_frame. }
  clear H IH. simpl. unfold with_env, grows, rows_of in *; simpl.
  split; [congruence|]. split.
  { exists cs. rewrite Hrows4, Hw3.
    split; [done|]. split; [exact Hnd|].
    intros c Hc. split; [by apply Hout|]. rewrite Hex4, Hex.
    apply elem_of_union_l, elem_of_list_to_set. by apply list_elem_of_fmap_2. }
  split; [rewrite Hex4, Hex; apply union_subseteq_r|].
  rewrite Hck4, Hck3. split; [apply agree_off_set|].
  right. eexists. split; [reflexivity|apply agree_off_set].
Qed.

Lemma process_keyword_grows yt stop (params : KeywordParams) (s s' : State) (r : result PyVal) :
  process_keyword yt stop params s = (r, s') ->
  grows (keyword params) (env s) (env s') /\ (forall v, r = Ok v -> v = PyNone).
Proof.
  unfold process_keyword. intros H.
  apply bind_inv in H as [(s0 & s1 & [= <- <-] & H)|(? & [=] & _)].
  apply bind_inv in H as [(u & s2 & Hp & H)|(e & Hp & ->)].
  - injection H as <- <-. apply process_pages_grows in Hp. split; [exact Hp|]. by intros ? [= <-].
  - apply process_pages_grows in Hp. split; [exact Hp|]. by intros ? [=].
Qed.

(** ** Invariants of the keyword loop *)

Lemma url_column_rows_for (kw : string) (cs : list Candidate) :
  url_column (rows_for kw cs) = map cand_url cs.
Proof. induction cs as [|c cs IH]; simpl; [done|]. by f_equal. Qed.

Lemma dedup_grows (kept : list (list string)) (kw : string) (e e' : Env) :
  dedup kept e -> grows kw e e' -> dedup kept e'.
Proof.
  intros (app & Hrows & Hlen & Hnd & Hin & Hseed) (_ & (cs & Hr & Hn & Hc) & Hsub & _).
  exists (app ++ rows_for kw cs)%list. split; [by rewrite Hr, Hrows, app_assoc|].
  unfold url_column in *. rewrite omap_app. fold (url_column (rows_for kw cs)).
  rewrite url_column_rows_for. split.
  { rewrite !length_app, Hlen. unfold rows_for. by rewrite !length_map. }
  split.
  { apply NoDup_app. split; [exact Hnd|]. split; [|exact Hn].
    intros u Hu Hu'. apply list_elem_of_fmap in Hu' as (c & -> & Hc').
    destruct (Hc _ Hc') as [Hout _]. apply Hout. by apply Hin. }
  split.
  { intros u Hu. apply elem_of_app in Hu as [Hu|Hu].
    - destruct (Hin _ Hu) as [? ?]. split; [by apply Hsub|done].
    - apply list_elem_of_fmap in Hu as (c & -> & Hc').
      destruct (Hc _ Hc') as [Hout Hin']. split; [done|]. intros Hs. apply Hout. by apply Hseed. }
  intros u Hu. by apply Hsub, Hseed.
Qed.

Lemma dedup_snapshot (kept : list (list string)) (e : Env) : dedup kept e -> dedup kept (snapshot e).
Proof. intros H. exact H. Qed.

Lemma untouched_grows (K : string) cursor (kept : list (list string)) (kw : string) (e e' : Env) :
  kw <> K -> untouched K cursor kept e -> grows kw e e' -> untouched K cursor kept e'.
Proof.
  intros Hne (Hpos & Hcnt & Hfile & app & Hrows & Hall)
         (_ & (cs & Hr & _ & _) & _ & Hag & Hf).
  assert (HK : K <> kw) by congruence.
  destruct (Hag K HK) as [Hp Hc]. split; [congruence|]. split; [by rewrite Hc|]. split.
  { intros c Hcf. destruct Hf as [Hsame|(ck & Hck & Hagk)].
    - apply Hfile. by rewrite <- Hsame.
    - rewrite Hck in Hcf. injection Hcf as <-. destruct (Hagk K HK) as [Hp' _]. congruence. }
  exists (app ++ rows_for kw cs)%list. split; [by rewrite Hr, Hrows, app_assoc|].
  apply Forall_app. split; [exact Hall|].
  unfold rows_for. apply Forall_fmap, Forall_forall. intros c _. simpl. congruence.
Qed.

Lemma untouched_snapshot (K : string) cursor (kept : list (list string)) (e : Env) :
  untouched K cursor kept e -> untouched K cursor kept (snapshot e).
Proof.
  intros (Hpos & Hcnt & Hfile & Happ). split; [exact Hpos|]. split; [exact Hcnt|].
  split; [|exact Happ]. simpl. by intros c [= <-].
Qed.

Lemma keyword_loop_invariant yt stop (P : Env -> Prop) :
  (forall e e', frame e e' -> P e -> P e') ->
  (forall kw e e',
      P e -> saved_count (checkpoint e) kw < config.MAX_VALID_PER_KEYWORD ->
      grows kw e e' -> P e') ->
  (forall e, P e -> P (snapshot e)) ->
  forall (params : ScanParams) (kws : list string) (total : Z) (s s' : State) (r : result Z),
    keyword_loop yt stop params kws total s = (r, s') -> P (env s) -> P (env s').
Proof.
  intros Hframe Hgrow Hsnap params kws.
  induction kws as [|kw kws IH]; intros total s s' r H HP; simpl in H.
  { by injection H as <- <-. }
  apply bind_inv in H as [(stopb & s0 & Hstop & H)|(e & Hstop & ->)].
  2:{ eapply Hframe; [|exact HP]. by_frame. }
  assert (HP0 : P (env s0)) by (eapply Hframe; [|exact HP]; by_frame).
  clear HP Hstop s. destruct stopb.
  { apply bind_inv in H as [(u & s1 & Hlog & H)|(e & Hlog & ->)].
    - injection H as <- <-. eapply Hframe; [|exact HP0]. by_frame.
    - eapply Hframe; [|exact HP0]. by_frame. }
  apply bind_inv in H as [(s0' & s0'' & [= <- <-] & H)|(? & [=] & _)].
  destruct (config.MAX_VALID_PER_KEYWORD <=? saved_count (checkpoint (env s0)) kw) eqn:Hcap.
  { apply bind_inv in H as [(u & s1 & Hlog & H)|(e & Hlog & ->)].
    - eapply IH; [exact H|]. eapply Hframe; [|exact HP0]. by_frame.
    - eapply Hframe; [|exact HP0]. by_frame. }
  apply Z.leb_gt in Hcap.
  apply bind_inv in H as [(u & s1 & Hlog & H)|(e & Hlog & ->)].
  2:{ eapply Hframe; [|exact HP0]. by_frame. }
  assert (HP1 : P (env s1)) by (eapply Hframe; [|exact HP0]; by_frame).
  assert (Hcap1 : saved_count (checkpoint (env s1)) kw < config.MAX_VALID_PER_KEYWORD).
  { assert (Hf : frame (env s0) (env s1)) by by_frame.
    destruct Hf as (_ & _ & _ & _ & ->). exact Hcap. }
  clear HP0 Hcap Hlog s0.
  apply bind_inv in H as [(count & s2 & Hkw & H)|(e & Hkw & ->)].
  2:{ apply process_keyword_grows in Hkw as [Hg _]. eapply Hgrow; eauto. }
  apply process_keyword_grows in Hkw as [Hg _].
  assert (HP2 : P (env s2)) by (eapply Hgrow; eauto).
  clear HP1 Hcap1 Hg s1.
  apply bind_inv in H as [(u' & s3 & Hlog & H)|(e & Hlog & ->)].
  2:{ eapply Hframe; [|exact HP2]. by_frame. }
  assert (HP3 : P (env s3)) by (eapply Hframe; [|exact HP2]; by_frame).
  clear HP2 Hlog s2.
  destruct (py_iadd total count) as [total'|e].
  2:{ by injection H as <- <-. }
  apply bind_inv in H as [(u2 & s4 & Hmod & H)|(e & Hmod & ->)].
  2:{ by apply lift_modify_run in Hmod as [[=] _]. }
  apply lift_modify_run in Hmod as [_ ->].
  apply bind_inv in H as [(s4' & s4'' & [= <- <-] & H)|(? & [=] & _)].
  apply bind_inv in H as [(u3 & s5 & Hsave & H)|(e & Hsave & ->)].
  2:{ by apply lift_modify_run in Hsave as [[=] _]. }
  apply lift_modify_run in Hsave as [_ ->].
  eapply IH; [exact H|]. apply (Hsnap _ HP3).
Qed.

(** ** The prelude of [run_scraper] *)

Lemma setup_worksheet_run (settings : Settings) (e e' : Env) (r : result unit) :
  setup_worksheet settings e = (r, e') ->
  (rows_of e' = rows_of e \/ rows_of e' = [header])
  /\ checkpoint_file e' = checkpoint_file e.
Proof.
  unfold setup_worksheet, bind, get, rows_of.
  destruct (sheets_fault e) as [[]|] eqn:Hfault; simpl;
    try (intros [= <- <-]; simpl; by auto).
  destruct (worksheet e) as [ws|] eqn:Hws; simpl; rewrite ?Hws; simpl.
  - destruct (bool_decide (head ws = Some header)); simpl;
      intros [= <- <-]; simpl; rewrite ?Hws; by auto.
  - intros [= <- <-]; simpl; by auto.
Qed.

Lemma load_checkpoint_run (e e' : Env) (r : result Checkpoint) :
  load_checkpoint e = (r, e') ->
  frame e e' /\ forall c0, checkpoint_file e = Holds c0 -> r = Ok c0.
Proof.
  unfold load_checkpoint, bind, get.
  destruct (checkpoint_file e) as [|c|err] eqn:Hfile.
  - intros [= <- <-]. split; [apply frame_refl|done].
  - intros [= <- <-]. split; [apply frame_refl|]. by intros ? [= <-].
  - destruct (load_catches err); intros [= <- <-]; (split; [by repeat split|done]).
Qed.

Lemma run_scraper_cases yt stop (params : ScanParams) (settings : Settings)
    (s s' : State) (r : result unit) :
  run_scraper yt stop params settings s = (r, s') ->
  ((rows_of (env s') = rows_of (env s) \/ rows_of (env s') = [header])
   /\ checkpoint_file (env s') = checkpoint_file (env s))
  \/ (exists s1 s2 r1,
        loop_start (env s) (env s1)
        /\ keyword_loop yt stop params (keywords params) 0 s1 = (r1, s2)
        /\ frame (env s2) (env s')).
Proof.
  unfold run_scraper. intros H.
  apply bind_inv in H as [(u & s0 & Hlog & H)|(e & Hlog & ->)].
  2:{ by apply lift_modify_run in Hlog as [[=] _]. }
  apply lift_modify_run in Hlog as [_ ->].
  destruct (new_manager (youtube_api_keys settings)) as [mgr|e].
  2:{ injection H as <- <-. left. by auto. }
  apply bind_inv in H as [(u0 & s1 & Hmod & H)|(e & [=] & _)].
  injection Hmod as <- <-.
  apply bind_inv in H as [(u1 & s2 & Hsetup & H)|(e & Hsetup & ->)];
    apply lift_inv in Hsetup as (e2 & Hsetup & ->);
    apply setup_worksheet_run in Hsetup as [Hrows Hfile]; simpl in Hrows, Hfile.
  2:{ left. by auto. }
  apply bind_inv in H as [(u2 & s3 & Hlog & H)|(e & Hlog & ->)].
  2:{ by apply lift_modify_run in Hlog as [[=] _]. }
  apply lift_modify_run in Hlog as [_ ->].
  apply bind_inv in H as [(all_values & s4 & Hall & H)|(e & [=] & _)].
  injection Hall as <- <-.
  apply bind_inv in H as [(u3 & s5 & Hmod & H)|(e & Hmod & ->)].
  2:{ by apply lift_modify_run in Hmod as [[=] _]. }
  apply lift_modify_run in Hmod as [_ ->].
  apply bind_inv in H as [(u4 & s6 & Hlog & H)|(e & Hlog & ->)].
  2:{ by apply lift_modify_run in Hlog as [[=] _]. }
  apply lift_modify_run in Hlog as [_ ->].
  apply bind_inv in H as [(loaded & s7 & Hload & H)|(e & Hload & ->)];
    apply lift_inv in Hload as (e7 & Hload & ->);
    apply load_checkpoint_run in Hload as [Hf Hloaded];
    destruct Hf as (Hf1 & Hf2 & Hf3 & Hf4 & Hf5); simpl in *.
  2:{ left. unfold rows_of in *. rewrite Hf2, Hf3. simpl. by auto. }
  apply bind_inv in H as [(u5 & s8 & Hmod & H)|(e & Hmod & ->)].
  2:{ by apply lift_modify_run in Hmod as [[=] _]. }
  apply lift_modify_run in Hmod as [_ ->].
  right.
  apply bind_inv in H as [(total & s9 & Hloop & H)|(e & Hloop & ->)].
  - eexists _, _, _. split; [|split; [exact Hloop|by_frame]].
    unfold loop_start, rows_of in *. simpl. rewrite Hf2, Hf3, Hf4. simpl.
    split; [exact Hrows|]. split; [reflexivity|]. split; [exact Hfile|].
    intros c0 Hc0. rewrite <- Hfile in Hc0. specialize (Hloaded c0 Hc0). congruence.
  - eexists _, _, _. split; [|split; [exact Hloop|apply frame_refl]].
    unfold loop_start, rows_of in *. simpl. rewrite Hf2, Hf3, Hf4. simpl.
    split; [exact Hrows|]. split; [reflexivity|]. split; [exact Hfile|].
    intros c0 Hc0. rewrite <- Hfile in Hc0. specialize (Hloaded c0 Hc0). congruence.
Qed.

(** ** Dedup invariant *)

Lemma dedup_frame (kept : list (list string)) (e e' : Env) :
  frame e e' -> dedup kept e -> dedup kept e'.
Proof. intros Hf Hd. eapply dedup_grows; [exact Hd|]. by apply (frame_grows ""). Qed.

Lemma dedup_start (e : Env) :
  existing_channels e = list_to_set (sheet_urls (rows_of e)) -> dedup (rows_of e) e.
Proof.
  intros Hex. exists []. split; [by rewrite app_nil_r|]. split; [done|]. split; [constructor|].
  split; [by intros ? ?%elem_of_nil|]. intros u Hu. rewrite Hex. by apply elem_of_list_to_set.
Qed.

(** C6. Processing a keyword keeps the dedup invariant, whatever the remote
    service answers: the rows appended since the scan began have pairwise
    distinct URLs, none of them a URL of the rows the sheet already held, and
    all of them known to the dedup set, so a channel met again on a later
    page or under a later keyword is rejected. A whole run of [run_scraper]
    ends in such a world, with the dedup set seeded from the rows of the
    sheet. *)
Theorem no_url_appended_twice yt stop :
  (forall (params : KeywordParams) (kept : list (list string)) (s : State),
      dedup kept (env s) -> dedup kept (env (snd (process_keyword yt stop params s))))
  /\ (forall (params : ScanParams) (settings : Settings) (s : State),
        exists kept appended,
          (kept = rows_of (env s) \/ kept = [header])
          /\ rows_of (env (snd (run_scraper yt stop params settings s))) = (kept ++ appended)%list
          /\ length (url_column appended) = length appended
          /\ NoDup (url_column appended)
          /\ forall u, u ∈ url_column appended ->
               (u ∈ existing_channels (env (snd (run_scraper yt stop params settings s))))
               /\ (u ∉ sheet_urls kept)).
Proof.
  split.
  - intros params kept s Hd.
    destruct (process_keyword yt stop params s) as [r s'] eqn:Hrun.
    apply process_keyword_grows in Hrun as [Hg _]. by eapply dedup_grows.
  - intros params settings s.
    destruct (run_scraper yt stop params settings s) as [r s'] eqn:Hrun. simpl.
    apply run_scraper_cases in Hrun as [[Hrows _]|(s1 & s2 & r1 & Hstart & Hloop & Hf)].
    + exists (rows_of (env s')), []. split; [destruct Hrows; by auto|].
      split; [by rewrite app_nil_r|]. split; [done|]. split; [constructor|].
      by intros ? ?%elem_of_nil.
    + destruct Hstart as (Hrows & Hex & _).
      assert (Hd : dedup (rows_of (env s1)) (env s')).
      { eapply dedup_frame; [exact Hf|].
        eapply (keyword_loop_invariant yt stop (dedup (rows_of (env s1)))); [| | |exact Hloop|].
        - intros e e' Hfr He. by eapply dedup_frame.
        - intros kw e e' He _ Hg. by eapply dedup_grows.
        - intros e He. by apply dedup_snapshot.
        - by apply dedup_start. }
      destruct Hd as (appended & Hr & Hlen & Hnd & Hin & _).
      exists (rows_of (env s1)), appended. split; [destruct Hrows; by auto|]. by auto.
Qed.

(** ** Resume idempotence *)

Lemma process_keyword_capped yt stop (params : KeywordParams) (s : State) :
  config.MAX_VALID_PER_KEYWORD <= saved_count (checkpoint (env s)) (keyword params) ->
  process_keyword yt stop params s = (Ok PyNone, s).
Proof.
  intros Hcap. unfold process_keyword, bind, get. simpl.
  assert (Hlt : (saved_count (checkpoint (env s)) (keyword params)
                 <? config.MAX_VALID_PER_KEYWORD) = false) by by apply Z.ltb_ge.
  rewrite Hlt. reflexivity.
Qed.

Lemma untouched_frame (K : string) cursor (kept : list (list string)) (e e' : Env) :
  frame e e' -> untouched K cursor kept e -> untouched K cursor kept e'.
Proof.
  intros (_ & Hw & Hfile & _ & Hck). unfold untouched, rows_of. by rewrite Hw, Hfile, Hck.
Qed.

(** C7. When the checkpoint says that keyword K has reached the per-keyword
    cap, processing K does nothing at all, and a scan over any list of
    keywords leaves the cursor of K as it was, in the checkpoint and in any
    saved file, and appends no row for K. The same holds for a whole run
    started on a checkpoint file that records K at the cap. *)
Theorem capped_keyword_untouched yt stop (K : string) :
  (forall (scan : ScanParams) (s : State),
      config.MAX_VALID_PER_KEYWORD <= saved_count (checkpoint (env s)) K ->
      process_keyword yt stop {| scan := scan; keyword := K |} s = (Ok PyNone, s))
  /\ (forall (params : ScanParams) (kws : list string) (total : Z) (s : State)
            (cursor : option string) (kept : list (list string)),
        untouched K cursor kept (env s) ->
        untouched K cursor kept (env (snd (keyword_loop yt stop params kws total s))))
  /\ (forall (params : ScanParams) (settings : Settings) (s : State) (c0 : Checkpoint),
        checkpoint_file (env s) = Holds c0 ->
        config.MAX_VALID_PER_KEYWORD <= saved_count c0 K ->
        (forall c, checkpoint_file (env (snd (run_scraper yt stop params settings s))) = Holds c ->
                   saved_position c K = saved_position c0 K)
        /\ exists kept appended,
             (kept = rows_of (env s) \/ kept = [header])
             /\ rows_of (env (snd (run_scraper yt stop params settings s)))
                = (kept ++ appended)%list
             /\ Forall (fun row => row !! 3%nat <> Some K) appended).
Proof.
  assert (Hloop : forall params kws total s cursor kept r s',
             keyword_loop yt stop params kws total s = (r, s') ->
             untouched K cursor kept (env s) -> untouched K cursor kept (env s')).
  { intros params kws total s cursor kept r s' Hrun.
    eapply (keyword_loop_invariant yt stop (untouched K cursor kept)); [| | |exact Hrun].
    - intros e e' Hf He. by eapply untouched_frame.
    - intros kw e e' He Hlt Hg. eapply untouched_grows; [|exact He|exact Hg].
      intros ->. destruct He as (_ & Hcap & _). lia.
    - intros e He. by apply untouched_snapshot. }
  split; [|split].
  - intros scan s Hcap. by apply process_keyword_capped.
  - intros params kws total s cursor kept Hu.
    destruct (keyword_loop yt stop params kws total s) as [r s'] eqn:Hrun. by eapply Hloop.
  - intros params settings s c0 Hfile Hcap.
    destruct (run_scraper yt stop params settings s) as [r s'] eqn:Hrun. simpl.
    apply run_scraper_cases in Hrun as [[Hrows Hsame]|(s1 & s2 & r1 & Hstart & Hrun & Hf)].
    + split; [intros c Hc; rewrite Hsame, Hfile in Hc; by injection Hc as <-|].
      exists (rows_of (env s')), []. split; [destruct Hrows; by auto|].
      split; [by rewrite app_nil_r|constructor].
    + destruct Hstart as (Hrows & _ & Hfile1 & Hck1).
      assert (Hu : untouched K (saved_position c0 K) (rows_of (env s1)) (env s')).
      { eapply untouched_frame; [exact Hf|]. eapply Hloop; [exact Hrun|].
        unfold untouched. rewrite (Hck1 c0 Hfile). split; [done|]. split; [done|].
        split; [intros c Hc; rewrite Hfile1, Hfile in Hc; by injection Hc as <-|].
        exists []. split; [by rewrite app_nil_r|constructor]. }
      destruct Hu as (_ & _ & Hsaved & appended & Hr & Hall).
      split; [exact Hsaved|]. exists (rows_of (env s1)), appended.
      split; [destruct Hrows; by auto|]. by auto.
Qed.

(** ** The inactivity parameter *)

Lemma bind_ext {S A B} (m : M S A) (k k' : A -> M S B) (s : S) :
  (forall a s1, k a s1 = k' a s1) -> bind m k s = bind m k' s.
Proof. intros H. unfold bind. destruct (m s) as [[a|e] s1]; [apply H|reflexivity]. Qed.

Lemma bind_cong {S A B} (m m' : M S A) (k k' : A -> M S B) (s : S) :
  m s = m' s -> (forall a s1, k a s1 = k' a s1) -> bind m k s = bind m' k' s.
Proof. intros Hm H. unfold bind. rewrite Hm. destruct (m' s) as [[a|e] s1]; [apply H|reflexivity]. Qed.

Lemma select_candidates_inactivity (p : ScanParams) (d : Z) (kw : string)
    (existing : gset string) (items : list Channel) : forall acc : list Candidate,
  select_candidates {| scan := with_inactivity d p; keyword := kw |} existing items acc
  = select_candidates {| scan := p; keyword := kw |} existing items acc.
Proof.
  induction items as [|ch items IH]; intros acc; simpl; [reflexivity|].
  destruct (negb (truthy (ch_id ch)) || bool_decide (channel_url (ch_id ch) ∈ existing)); [apply IH|].
  destruct (py_int (ch_subscriberCount ch)) as [subs|e]; [|reflexivity].
  destruct (negb _); [apply IH|]. destruct (negb _); [apply IH|].
  destruct (extract_emails (ch_description ch)); apply IH.
Qed.

Lemma process_pages_inactivity yt stop (p : ScanParams) (d : Z) (kw : string) :
  forall (n : nat) (tok : option string) (cnt : Z) (s : State),
    process_pages yt stop n {| scan := with_inactivity d p; keyword := kw |} tok cnt s
    = process_pages yt stop n {| scan := p; keyword := kw |} tok cnt s.
Proof.
  induction n as [|n IH]; intros tok cnt s; simpl; [reflexivity|].
  destruct (negb (cnt <? config.MAX_VALID_PER_KEYWORD)); [reflexivity|].
  apply bind_ext. intros stopb s0. destruct stopb; [reflexivity|].
  apply bind_ext. intros sr s1.
  destruct (channel_ids_of (sr_items sr)) as [[|cid ids]|e]; try reflexivity.
  apply bind_ext. intros dr s2. apply bind_ext. intros s2' s2''.
  rewrite select_candidates_inactivity.
  destruct (select_candidates _ _ _ _) as [cands|e]; [|reflexivity].
  apply bind_ext. intros built s3. apply bind_ext. intros u s4.
  apply bind_ext. intros u' s5. apply bind_ext. intros s5' s5''.
  apply bind_ext. intros u'' s6.
  destruct (negb (truthy (nextPageToken sr))); [reflexivity|].
  apply bind_ext. intros u3 s7. apply IH.
Qed.

Lemma keyword_loop_inactivity yt stop (p : ScanParams) (d : Z) :
  forall (kws : list string) (total : Z) (s : State),
    keyword_loop yt stop (with_inactivity d p) kws total s
    = keyword_loop yt stop p kws total s.
Proof.
  induction kws as [|kw kws IH]; intros total s; simpl; [reflexivity|].
  apply bind_ext. intros stopb s0. destruct stopb; [reflexivity|].
  apply bind_ext. intros s0' s0''.
  destruct (config.MAX_VALID_PER_KEYWORD <=? _).
  { apply bind_ext. intros u s1. apply IH. }
  apply bind_ext. intros u s1.
  assert (Hkw : forall st, process_keyword yt stop {| scan := with_inactivity d p; keyword := kw |} st
                           = process_keyword yt stop {| scan := p; keyword := kw |} st).
  { intros st. unfold process_keyword. apply bind_ext. intros st' st''. cbv zeta.
    apply bind_cong; [apply process_pages_inactivity|reflexivity]. }
  apply bind_cong; [apply Hkw|]. intros count s2.
  apply bind_ext. intros u' s3.
  destruct (py_iadd total count) as [total'|e]; [|reflexivity].
  apply bind_ext. intros u2 s4. apply bind_ext. intros s4' s4''.
  apply bind_ext. intros u3 s5. apply IH.
Qed.

(** C10. Two runs that differ only in [inactivity_days] end with the same
    outcome in the same world: the same rows in the sheet, the same saved
    checkpoint, the same log. *)
Theorem inactivity_days_ignored yt stop (p : ScanParams) (d1 d2 : Z)
    (settings : Settings) (s : State) :
  run_scraper yt stop (with_inactivity d1 p) settings s
  = run_scraper yt stop (with_inactivity d2 p) settings s.
Proof.
  assert (H : forall d, run_scraper yt stop (with_inactivity d p) settings s
                        = run_scraper yt stop p settings s).
  { intros d. unfold run_scraper. apply bind_ext. intros u s0.
    destruct (new_manager (youtube_api_keys settings)) as [mgr|e]; [|reflexivity].
    do 8 (apply bind_ext; intros ? ?). simpl keywords.
    apply bind_cong; [apply keyword_loop_inactivity|reflexivity]. }
  by rewrite !H.
Qed.

(** ** The orchestrator's total *)

Lemma keyword_loop_never_accumulates yt stop (params : ScanParams) :
  forall (kws : list string) (total t : Z) (s s' : State),
    keyword_loop yt stop params kws total s = (Ok t, s') -> t = total.
Proof.
  induction kws as [|kw kws IH]; intros total t s s' H; simpl in H.
  { by injection H as <- <-. }
  apply bind_inv in H as [(stopb & s0 & _ & H)|(e & _ & [=])].
  destruct stopb.
  { apply bind_inv in H as [(u & s1 & _ & H)|(e & _ & [=])]. by injection H as <- <-. }
  apply bind_inv in H as [(s0' & s0'' & [= <- <-] & H)|(? & [=] & _)].
  destruct (config.MAX_VALID_PER_KEYWORD <=? _).
  { apply bind_inv in H as [(u & s1 & _ & H)|(e & _ & [=])]. by eapply IH. }
  apply bind_inv in H as [(u & s1 & _ & H)|(e & _ & [=])].
  apply bind_inv in H as [(count & s2 & Hkw & H)|(e & _ & [=])].
  apply process_keyword_grows in Hkw as [_ Hnone]. rewrite (Hnone _ eq_refl) in H.
  apply bind_inv in H as [(u' & s3 & _ & H)|(e & _ & [=])].
  simpl in H. discriminate H.
Qed.

(** C1. A run over one keyword that is processed (here with a search that
    finds nothing): [process_keyword] gives back [None], the line
    "--- Added None new channels ---" is logged, [total_added += count]
    raises TypeError, and the final summary is never logged. *)
Theorem run_scraper_raises_after_processing :
  let out := run_scraper no_hits never_stop cats_scan sample_settings (boot quiet_env) in
  fst out = Raise (TypeError "unsupported operand type(s) for +=: 'int' and 'NoneType'")
  /\ log (env (snd out))
     = [ "Scraper starting...";
         "Loading existing channels from Google Sheet...";
         "Found 0 existing channels.";
         nl +:+ "=== Processing Keyword: cats ===";
         "No more search results for 'cats'.";
         "--- Added None new channels for 'cats' ---" ]
  /\ forall total, summary total ∉ log (env (snd out)).
Proof.
  cbv zeta. split; [vm_compute; reflexivity|].
  assert (Hlog : log (env (snd (run_scraper no_hits never_stop cats_scan sample_settings
                                  (boot quiet_env))))
                 = [ "Scraper starting...";
                     "Loading existing channels from Google Sheet...";
                     "Found 0 existing channels.";
                     nl +:+ "=== Processing Keyword: cats ===";
                     "No more search results for 'cats'.";
                     "--- Added None new channels for 'cats' ---" ])
    by (vm_compute; reflexivity).
  split; [exact Hlog|]. intros total Hin. rewrite Hlog in Hin. unfold summary in Hin.
  repeat (apply elem_of_cons in Hin as [Hin|Hin]; [simpl in Hin; discriminate Hin|]).
  by apply elem_of_nil in Hin.
Qed.

(** ** A search without hits *)

Lemma load_checkpoint_reads_file (e e' : Env) :
  checkpoint_file e' = checkpoint_file e ->
  fst (load_checkpoint e') = fst (load_checkpoint e).
Proof.
  unfold load_checkpoint, bind, get. intros H. rewrite H.
  destruct (checkpoint_file e) as [|c|err]; try reflexivity.
  destruct (load_catches err); reflexivity.
Qed.

(** The saved checkpoint is in step once the checkpoint has been loaded
    and again after every save. *)
Lemma in_step_after_load (e e' : Env) (c : Checkpoint) :
  load_checkpoint e = (Ok c, e') -> in_step (set_checkpoint c e').
Proof.
  unfold in_step. intros H.
  assert (Hfile : checkpoint_file (set_checkpoint c e') = checkpoint_file e).
  { revert H. unfold load_checkpoint, bind, get.
    destruct (checkpoint_file e) as [|c0|err] eqn:Hf; simpl;
      [by intros [= _ <-]|by intros [= _ <-]|].
    destruct (load_catches err); simpl; [by intros [= _ <-]|discriminate]. }
  rewrite (load_checkpoint_reads_file _ _ Hfile). by rewrite H.
Qed.

Lemma in_step_after_save (e : Env) :
  in_step (snd (save_checkpoint (checkpoint e) e)).
Proof. reflexivity. Qed.




Lemma no_url_appended_twice_witness :
  let s0 := state_of ["K1"] 0 quiet_env in
  let s1 := snd (process_keyword same_channel never_stop cats s0) in
  let s2 := snd (process_keyword same_channel never_stop dogs s1) in
  dedup [header] (env s2)
  /\ rows_of (env s2)
     = [ header; ["Cat Lady"; "cat@lady.org"; "https://www.youtube.com/channel/UC1"; "cats"] ].
Proof.
  intros s0 s1 s2. split; [|vm_compute; reflexivity].
  apply (proj1 (no_url_appended_twice same_channel never_stop)).
  apply (proj1 (no_url_appended_twice same_channel never_stop)).
  exists []. split; [reflexivity|]. split; [reflexivity|]. split; [constructor|].
  split; intros u Hu; by apply elem_of_nil in Hu.
Defined.

Lemma capped_keyword_untouched_witness :
  let out := run_scraper no_hits never_stop cats_scan sample_settings (boot capped_env) in
  fst out = Ok tt
  /\ saved_count capped_checkpoint "cats" = 100
  /\ (forall c, checkpoint_file (env (snd out)) = Holds c -> saved_position c "cats" = Some "PAGE3")
  /\ rows_of (env (snd out)) = [header].
Proof.
  cbv zeta. split; [vm_compute; reflexivity|]. split; [vm_compute; reflexivity|].
  split; [|vm_compute; reflexivity].
  destruct (capped_keyword_untouched no_hits never_stop "cats") as (_ & _ & H).
  destruct (H cats_scan sample_settings (boot capped_env) capped_checkpoint) as [Hsaved _].
  - reflexivity.
  - vm_compute. discriminate.
  - intros c Hc. rewrite (Hsaved c Hc). vm_compute. reflexivity.
Defined.

(** * Further properties *)

(** ** More on the credential rotator *)

Lemma grants_order (n : nat) : forall s : State,
  valid_manager (yt_manager s) ->
  exists granted s',
    grants n s = (Ok granted, s')
    /\ length granted = n
    /\ forall j, (j < n)%nat ->
         granted !! j
         = api_keys (yt_manager s)
             !! ((current_key_index (yt_manager s) + j) `mod` length (api_keys (yt_manager s)))%nat.
Proof.
  unfold valid_manager. induction n as [|n IH]; intros s Hs.
  - exists [], s. split; [reflexivity|]. split; [reflexivity|]. intros j Hj. lia.
  - destruct (lookup_lt_is_Some_2 _ _ Hs) as [key Hkey].
    simpl. unfold bind at 1. rewrite (get_client_ok s key Hkey).
    edestruct (IH {| yt_manager := advanced (yt_manager s) 1;
                     clients := clients s ++ [key]; env := env s |})
      as (more & s' & Hm & Hl & Hj).
    { simpl. apply Nat.mod_upper_bound. lia. }
    unfold bind. rewrite Hm. exists (key :: more), s'.
    split; [reflexivity|]. split; [simpl; lia|].
    intros [|j] Hlt.
    + simpl. rewrite Nat.add_0_r, Nat.mod_small by exact Hs. by rewrite Hkey.
    + simpl. rewrite Hj by lia. simpl. f_equal.
      rewrite Nat.Div0.add_mod_idemp_l. f_equal. lia.
Qed.

(** X1. From a cursor inside the pool, any number of consecutive grants
    succeed, and the j-th of them hands out key number (cursor + j) mod N:
    the keys come in pool order, wrapping around. *)
Theorem get_client_round_robin_order (n : nat) (s : State) :
  valid_manager (yt_manager s) ->
  exists granted,
    fst (grants n s) = Ok granted
    /\ length granted = n
    /\ forall j, (j < n)%nat ->
         granted !! j
         = api_keys (yt_manager s)
             !! ((current_key_index (yt_manager s) + j) `mod` length (api_keys (yt_manager s)))%nat.
Proof.
  intros Hs. destruct (grants_order n s Hs) as (granted & s' & Hg & Hl & Hj).
  exists granted. rewrite Hg. by auto.
Qed.

Lemma get_client_round_robin_order_witness :
  fst (grants 5 (state_of ["K1"; "K2"; "K3"] 1 quiet_env)) = Ok ["K2"; "K3"; "K1"; "K2"; "K3"].
Proof.
  destruct (get_client_round_robin_order 5 (state_of ["K1"; "K2"; "K3"] 1 quiet_env))
    as (granted & Hg & _ & _).
  - unfold valid_manager. simpl. lia.
  - reflexivity.
Defined.

(** X2. An [HttpError] whose status is neither 403 nor 429 is not retried:
    [api_request] makes that one attempt and raises the error as it is,
    without a warning in the log and without a pause. *)
Theorem api_request_propagates_other_http_errors {A} (func : string -> IO A) (s : State)
    (key : string) (status : option Z) (e1 : Env) :
  api_keys (yt_manager s) !! current_key_index (yt_manager s) = Some key ->
  func key (env s) = (Raise (HttpError status), e1) ->
  quota_status status = false ->
  api_request func s =
    (Raise (HttpError status),
     {| yt_manager := advanced (yt_manager s) 1;
        clients := clients s ++ [key];
        env := e1 |}).
Proof.
  intros Hkey Hf Hq. unfold api_request, bind, get.
  destruct (length (api_keys (yt_manager s))) as [|n] eqn:HN.
  { apply lookup_lt_Some in Hkey. lia. }
  rewrite (api_request_loop_step func n None s key _ e1 Hkey Hf).
  cbv beta iota zeta. change (retryable (HttpError status)) with (quota_status status).
  by rewrite Hq.
Qed.

Lemma api_request_propagates_other_http_errors_witness :
  let s := state_of ["K1"; "K2"] 0 quiet_env in
  let func := scripted [Raise (HttpError (Some 500)); Ok 7] in
  fst (api_request func s) = Raise (HttpError (Some 500))
  /\ clients (snd (api_request func s)) = ["K1"]
  /\ log (env (snd (api_request func s))) = []
  /\ slept (env (snd (api_request func s))) = [].
Proof.
  intros s func.
  rewrite (api_request_propagates_other_http_errors func s "K1" (Some 500)
             (set_api_calls 1 quiet_env) eq_refl eq_refl eq_refl).
  repeat split.
Defined.

(** X3. [api_request] keeps the pool and leaves the cursor inside it,
    whatever the request does and however the call ends. *)
Theorem api_request_keeps_manager_valid {A} (func : string -> IO A) (s : State) :
  valid_manager (yt_manager s) ->
  api_keys (yt_manager (snd (api_request func s))) = api_keys (yt_manager s)
  /\ valid_manager (yt_manager (snd (api_request func s))).
Proof.
  unfold valid_manager. intros Hs. unfold api_request, bind, get.
  destruct (length (api_keys (yt_manager s))) as [|n] eqn:HN; [lia|].
  rewrite <- HN in Hs.
  destruct (api_request_loop_chain func n s None Hs) as (used & r & e' & _ & _ & _ & Hrun).
  rewrite Hrun. simpl. split; [reflexivity|]. apply Nat.mod_upper_bound. lia.
Qed.

Lemma api_request_keeps_manager_valid_witness :
  let s := state_of ["K1"; "K2"] 1 quiet_env in
  let func := scripted (A := Z) [Raise (HttpError (Some 429)); Raise (Exception "reset")] in
  api_keys (yt_manager (snd (api_request func s))) = ["K1"; "K2"]
  /\ valid_manager (yt_manager (snd (api_request func s))).
Proof.
  intros s func. apply (api_request_keeps_manager_valid func s).
  unfold valid_manager. simpl. lia.
Defined.

(** ** More on the email extractor *)

Lemma span_prefix (p : ascii -> bool) (s1 s2 : list ascii) :
  Forall (fun c => p c = true) s1 -> (length s1 <= span p (s1 ++ s2))%nat.
Proof.
  induction s1 as [|c s1 IH]; simpl; intros H; [lia|].
  apply Forall_cons in H as [Hc H]. rewrite Hc. specialize (IH H). lia.
Qed.

Lemma try_down_complete (rest : nat -> option nat) (lo j : nat) : forall k : nat,
  (lo <= j <= k)%nat -> is_Some (rest j) -> is_Some (try_down k lo rest).
Proof.
  induction k as [|k IH]; intros [Hlo Hhi] Hj; simpl.
  - assert (j = 0%nat) as -> by lia.
    destruct (0 <? lo)%nat eqn:Hlt; [apply Nat.ltb_lt in Hlt; lia|].
    destruct Hj as [m ->]. eauto.
  - destruct (S k <? lo)%nat eqn:Hlt; [apply Nat.ltb_lt in Hlt; lia|].
    destruct (rest (S k)) as [m|] eqn:Hr; [eauto|].
    destruct (decide (j = S k)) as [->|Hne].
    + rewrite Hr in Hj. by destruct Hj.
    + apply IH; [lia|exact Hj].
Qed.

Lemma match_here_complete (re : list Atom) : forall s chars rest : list ascii,
  s = (chars ++ rest)%list -> matches re chars -> is_Some (match_here re s).
Proof.
  induction re as [|a re IH]; intros s chars rest Hs Hm; simpl; [eauto|].
  simpl in Hm. destruct Hm as (s1 & s2 & -> & Hcls & Hmin & Hmax & Hrest).
  rewrite <- app_assoc in Hs. subst s.
  pose proof (span_prefix (cls a) s1 (s2 ++ rest) Hcls) as Hspan.
  apply (try_down_complete _ _ (length s1)).
  - split; [exact Hmin|]. destruct (rmax a) as [m|]; [|exact Hspan].
    specialize (Hmax m eq_refl). lia.
  - rewrite drop_app_length. by eapply IH.
Qed.

Lemma findall_from_nonempty (re : list Atom) : forall (s : list ascii) (skip i : nat),
  (skip <= i)%nat -> (i < length s)%nat ->
  is_Some (match_here re (drop i s)) ->
  findall_from re skip s <> [].
Proof.
  induction s as [|c s IH]; intros skip i Hskip Hi Hm; simpl in *; [lia|].
  destruct skip as [|k].
  - destruct (match_here re (c :: s)) as [len|] eqn:Hhere; [done|].
    destruct i as [|i]; [rewrite drop_0, Hhere in Hm; by destruct Hm|].
    apply (IH 0%nat i); [lia|lia|exact Hm].
  - destruct i as [|i]; [lia|]. apply (IH k i); [lia|lia|exact Hm].
Qed.

Lemma email_shape_matches (e : string) :
  email_shape e -> matches EMAIL_RE (list_ascii_of_string e).
Proof.
  intros (loc & dom & tld & -> & Hl & Hloc & Hd & Hdom & Ht & Htld).
  unfold EMAIL_RE. simpl matches.
  exists loc, ("@"%char :: dom ++ "."%char :: tld)%list. repeat split; try done.
  exists ["@"%char], (dom ++ "."%char :: tld)%list. repeat split; simpl; try lia.
  { by repeat constructor. }
  { intros m [= <-]. lia. }
  exists dom, ("."%char :: tld)%list. repeat split; try done.
  exists ["."%char], tld. repeat split; simpl; try lia.
  { by repeat constructor. }
  { intros m [= <-]. lia. }
  exists tld, []. rewrite app_nil_r. repeat split; try done.
Qed.

(** X4. A text that contains a substring of the email shape never comes out
    of [extract_emails] empty-handed: the leftmost greedy scan finds an
    address at or before the place where that substring starts. *)
Theorem extract_emails_finds_an_address (text e : string) :
  email_shape e -> occurs_in e text -> extract_emails (Some text) <> [].
Proof.
  intros Hshape (pre & post & Htext) Hempty.
  assert (Hall : findall EMAIL_RE text <> []).
  { unfold findall. rewrite Htext.
    apply (findall_from_nonempty EMAIL_RE _ 0 (length pre)); [lia| |].
    - destruct Hshape as (loc & dom & tld & -> & Hl & _).
      rewrite !length_app. simpl. lia.
    - rewrite drop_app_length. eapply match_here_complete; [reflexivity|].
      by apply email_shape_matches. }
  unfold extract_emails in Hempty. simpl in Hempty.
  destruct (findall EMAIL_RE text) as [|x l] eqn:Hf; [done|].
  assert (Hx : x ∈ elements (list_to_set (x :: l) : gset string)).
  { apply elem_of_elements, elem_of_list_to_set, list_elem_of_here. }
  rewrite Hempty in Hx. by apply elem_of_nil in Hx.
Qed.

Lemma extract_emails_finds_an_address_witness :
  extract_emails (Some "write to a.b@c-d.info today") <> [].
Proof.
  apply (extract_emails_finds_an_address _ "b@c-d.in").
  - exists ["b"%char], (list_ascii_of_string "c-d"), (list_ascii_of_string "in").
    split; [reflexivity|]. simpl. repeat split; try lia; by repeat constructor.
  - exists (list_ascii_of_string "write to a."), (list_ascii_of_string "fo today"). reflexivity.
Defined.

(** ** The country filter *)

Lemma upper_char_idempotent (c : ascii) : upper_char (upper_char c) = upper_char c.
Proof. destruct c as [[] [] [] [] [] [] [] []]; reflexivity. Qed.

Lemma upper_idempotent (s : string) : upper (upper s) = upper s.
Proof. induction s as [|c s IH]; simpl; [reflexivity|]. by rewrite upper_char_idempotent, IH. Qed.

Lemma truthy_upper (s : string) : truthy (Some (upper s)) = truthy (Some s).
Proof. by destruct s. Qed.

(** X5. On country codes of ASCII characters, with the configured
    allow-list: [is_country_allowed] rejects a missing or empty code,
    accepts exactly the non-empty codes whose upper-case form is in the
    list, and so does not depend on the letter case of the code. *)
Theorem is_country_allowed_ascii_codes :
  is_country_allowed None = false
  /\ is_country_allowed (Some "") = false
  /\ (forall c, ascii_only c ->
        (is_country_allowed (Some c) = true
         <-> c <> "" /\ upper c ∈ config.ALLOWED_COUNTRIES))
  /\ (forall c, ascii_only c ->
        ascii_only (upper c)
        /\ is_country_allowed (Some (upper c)) = is_country_allowed (Some c)).
Proof.
  split; [reflexivity|]. split; [reflexivity|].
  assert (Hunf : forall c, is_country_allowed (Some c)
                           = truthy (Some c) && bool_decide (upper c ∈ config.ALLOWED_COUNTRIES))
    by reflexivity.
  split.
  - intros c _. rewrite Hunf, andb_true_iff, bool_decide_eq_true.
    destruct c; simpl; split; intros [H1 H2]; (split; [congruence|exact H2]).
  - intros c Hc. split; [|by rewrite !Hunf, truthy_upper, upper_idempotent].
    unfold ascii_only in *. induction c as [|a c IH]; [reflexivity|].
    simpl in *. apply andb_true_iff in Hc as [Ha Hc]. rewrite (IH Hc), andb_true_r.
    clear -Ha. destruct a as [[] [] [] [] [] [] [] []]; first [reflexivity|discriminate Ha].
Qed.

Lemma is_country_allowed_ascii_codes_witness :
  is_country_allowed (Some "gb") = true
  /\ is_country_allowed (Some "Gb") = true
  /\ is_country_allowed (Some "GB") = is_country_allowed (Some "gb")
  /\ is_country_allowed (Some "FR") = false.
Proof.
  destruct is_country_allowed_ascii_codes as (_ & _ & Hiff & Hcase).
  split; [apply Hiff; [reflexivity|]; split; [discriminate|]|].
  { eapply bool_decide_eq_true_1. vm_compute. reflexivity. }
  split; [apply Hiff; [reflexivity|]; split; [discriminate|]|].
  { eapply bool_decide_eq_true_1. vm_compute. reflexivity. }
  split; [exact (proj2 (Hcase "gb" eq_refl))|reflexivity].
Defined.

(** ** The filter *)

Lemma select_candidates_sound (params : KeywordParams) (existing : gset string)
    (all : list Channel) (items : list Channel) : forall acc cs : list Candidate,
  select_candidates params existing items acc = Ok cs ->
  (forall ch, ch ∈ items -> ch ∈ all) ->
  Forall (fun c => exists ch, ch ∈ all /\ passes_filters params existing ch c) acc ->
  Forall (fun c => exists ch, ch ∈ all /\ passes_filters params existing ch c) cs.
Proof.
  induction items as [|ch items IH]; intros acc cs H Hin Hacc; simpl in H.
  - by injection H as <-.
  - assert (Hin' : forall ch', ch' ∈ items -> ch' ∈ all)
      by (intros ch' Hch'; by apply Hin, list_elem_of_further).
    destruct (negb (truthy (ch_id ch)) || bool_decide (channel_url (ch_id ch) ∈ existing))
      eqn:Hskip; [by eapply IH|].
    apply orb_false_iff in Hskip as [Hid Hnew].
    apply negb_false_iff in Hid. apply bool_decide_eq_false in Hnew.
    destruct (py_int (ch_subscriberCount ch)) as [subs|e] eqn:Hsubs; [|discriminate].
    destruct (negb ((min_subs (scan params) <=? subs) && (subs <=? max_subs (scan params))))
      eqn:Hrange; [by eapply IH|].
    apply negb_false_iff, andb_true_iff in Hrange as [Hlo Hhi].
    apply Z.leb_le in Hlo, Hhi.
    destruct (negb (is_country_allowed (ch_country ch))) eqn:Hcountry; [by eapply IH|].
    apply negb_false_iff in Hcountry.
    destruct (extract_emails (ch_description ch)) as [|em ems] eqn:Hem; [by eapply IH|].
    eapply IH; [exact H|exact Hin'|]. apply Forall_app. split; [exact Hacc|].
    apply Forall_singleton. exists ch. split; [apply Hin, list_elem_of_here|].
    destruct (ch_id ch) as [[|a id]|] eqn:Hchid; try discriminate.
    unfold passes_filters. simpl. rewrite Hchid, Hem.
    repeat split; done.
Qed.

(** X6. Every candidate that the filtering loop passes on comes from a
    channel of the response that has a non-empty id, a URL not yet in the
    dedup set, a subscriber count within [min_subs, max_subs], an allowed
    country and at least one extractable email. *)
Theorem select_candidates_only_passing (params : KeywordParams) (existing : gset string)
    (items : list Channel) (cs : list Candidate) :
  select_candidates params existing items [] = Ok cs ->
  Forall (fun c => exists ch, ch ∈ items /\ passes_filters params existing ch c) cs.
Proof.
  intros H. eapply select_candidates_sound; [exact H|done|constructor].
Qed.

Lemma select_candidates_only_passing_witness :
  exists c,
    select_candidates cats ∅ [cat_lady] [] = Ok [c]
    /\ passes_filters cats ∅ cat_lady c.
Proof.
  eexists. assert (Hrun : select_candidates cats ∅ [cat_lady] [] = Ok [_])
    by (vm_compute; reflexivity).
  split; [exact Hrun|].
  pose proof (select_candidates_only_passing cats ∅ [cat_lady] _ Hrun) as Hall.
  apply Forall_singleton in Hall as (ch & Hch & Hpass).
  apply list_elem_of_singleton in Hch. by subst ch.
Defined.

(** ** Worksheet setup *)

(** X7. [setup_worksheet] re-raises whatever connecting to the spreadsheet
    raises and then leaves the sheet alone. Whenever it returns normally,
    the sheet starts with the header row: a sheet that already did is not
    touched at all, not even the log is written, and any other sheet (also
    a missing or empty one) has been reset to the header row alone, losing
    its rows. The checkpoint and the dedup set are never touched. *)
Theorem setup_worksheet_repairs_header (settings : Settings) (e : Env) :
  (forall err, sheets_fault e = Some err ->
      fst (setup_worksheet settings e) = Raise err
      /\ worksheet (snd (setup_worksheet settings e)) = worksheet e)
  /\ (fst (setup_worksheet settings e) = Ok tt ->
        head (rows_of (snd (setup_worksheet settings e))) = Some header
        /\ (head (rows_of e) = Some header -> snd (setup_worksheet settings e) = e)
        /\ (head (rows_of e) <> Some header ->
              worksheet (snd (setup_worksheet settings e)) = Some [header]))
  /\ checkpoint_file (snd (setup_worksheet settings e)) = checkpoint_file e
  /\ checkpoint (snd (setup_worksheet settings e)) = checkpoint e
  /\ existing_channels (snd (setup_worksheet settings e)) = existing_channels e.
Proof.
  unfold setup_worksheet, bind, get, rows_of. split; [|split].
  - intros err Herr. rewrite Herr. destruct err; simpl; by auto.
  - destruct (sheets_fault e) as [err|] eqn:Hfault.
    { destruct err; simpl; discriminate. }
    intros _.
    destruct (worksheet e) as [ws|] eqn:Hws; simpl; rewrite ?Hws; simpl.
    + destruct (bool_decide (head ws = Some header)) eqn:Hhead; simpl.
      * apply bool_decide_eq_true in Hhead. rewrite Hws. simpl. by auto.
      * apply bool_decide_eq_false in Hhead. by auto.
    + repeat split; try done.
  - destruct (sheets_fault e) as [[]|]; simpl; try by auto.
    destruct (worksheet e) as [ws|] eqn:Hws; simpl; rewrite ?Hws; simpl; [|by auto].
    destruct (bool_decide (head ws = Some header)); simpl; by auto.
Qed.

Lemma setup_worksheet_repairs_header_witness :
  let stale := set_worksheet (Some [["name"; "mail"]; ["Bob"; "bob@site.org"]]) quiet_env in
  worksheet (snd (setup_worksheet sample_settings stale)) = Some [header]
  /\ snd (setup_worksheet sample_settings quiet_env) = quiet_env
  /\ head (rows_of (snd (setup_worksheet sample_settings (set_worksheet None quiet_env))))
     = Some header.
Proof.
  intros stale.
  destruct (setup_worksheet_repairs_header sample_settings stale) as (_ & H1 & _).
  destruct (H1 eq_refl) as (_ & _ & Hreset).
  destruct (setup_worksheet_repairs_header sample_settings quiet_env) as (_ & H2 & _).
  destruct (H2 eq_refl) as (_ & Hkeep & _).
  destruct (setup_worksheet_repairs_header sample_settings (set_worksheet None quiet_env))
    as (_ & H3 & _).
  destruct (H3 eq_refl) as (Hhead & _).
  split; [apply Hreset; discriminate|]. split; [apply Hkeep; reflexivity|exact Hhead].
Defined.

(** ** Counting rows and keeping the pool *)

Lemma pool_kept_refl (s : State) : pool_kept s s.
Proof. by split. Qed.

Lemma pool_kept_trans (s1 s2 s3 : State) : pool_kept s1 s2 -> pool_kept s2 s3 -> pool_kept s1 s3.
Proof. intros [H1 H2] [H3 H4]. split; [congruence|auto]. Qed.

Lemma lift_pool_kept {A} (m : IO A) (s s' : State) (r : result A) :
  lift m s = (r, s') -> pool_kept s s'.
Proof. intros H. apply lift_inv in H as (e' & _ & ->). by split. Qed.

Lemma api_request_pool_kept {A} (func : string -> IO A) (s s' : State) (r : result A) :
  api_request func s = (r, s') -> pool_kept s s'.
Proof.
  intros Hrun.
  destruct (decide (current_key_index (yt_manager s) < length (api_keys (yt_manager s)))%nat)
    as [Hs|Hs].
  - revert Hrun. unfold api_request, bind, get.
    destruct (length (api_keys (yt_manager s))) as [|n] eqn:HN; [lia|].
    rewrite <- HN in Hs.
    destruct (api_request_loop_chain func n s None Hs) as (used & r0 & e' & _ & _ & _ & Hrun).
    rewrite Hrun. intros [= <- <-]. split; [reflexivity|]. intros _. unfold valid_manager. simpl.
    apply Nat.mod_upper_bound. lia.
  - assert (Hnone : api_keys (yt_manager s) !! current_key_index (yt_manager s) = None)
      by (apply lookup_ge_None; lia).
    revert Hrun. unfold api_request, bind at 1, get.
    destruct (length (api_keys (yt_manager s))) as [|n] eqn:HN.
    + simpl. intros [= <- <-]. apply pool_kept_refl.
    + simpl. unfold bind at 1. rewrite (get_client_fail s Hnone).
      intros [= <- <-]. apply pool_kept_refl.
Qed.

Lemma run_pool_pool_kept yt (cids : list string) : forall (s s' : State) r,
  run_pool yt cids s = (r, s') -> pool_kept s s'.
Proof.
  induction cids as [|cid cids IH]; intros s s' r H; simpl in H.
  - injection H as <- <-. apply pool_kept_refl.
  - apply bind_inv in H as [(out & s1 & H1 & H)|(e & H1 & ->)].
    2:{ apply attempt_inv in H1 as (? & _ & [=]). }
    apply attempt_inv in H1 as (r0 & H1 & [= <-]).
    apply api_request_pool_kept in H1.
    apply bind_inv in H as [(fs & s2 & H2 & H)|(e & H2 & ->)].
    + injection H as <- <-. eapply pool_kept_trans; [exact H1|]. by eapply IH.
    + eapply pool_kept_trans; [exact H1|]. by eapply IH.
Qed.

Lemma collect_rows_count stop (kw : string) (dict : list (string * Candidate)) :
  forall (completed : list (string * result DetailsResult)) rows n s r s',
    collect_rows stop kw dict completed rows n s = (r, s') ->
    yt_manager s' = yt_manager s
    /\ forall rows' n', r = Ok (rows', n') ->
         exists extra,
           rows' = (rows ++ extra)%list
           /\ n' = n + Z.of_nat (length extra)
           /\ (n < config.MAX_VALID_PER_KEYWORD -> n' <= config.MAX_VALID_PER_KEYWORD).
Proof.
  induction completed as [|[cid outcome] rest IH]; intros rows n s r s' H.
  - injection H as <- <-. split; [reflexivity|]. intros ? ? [= <- <-].
    exists []. rewrite app_nil_r. simpl. split; [done|]. split; lia.
  - simpl in H. unfold bind at 1, lift at 1, should_stop in H. simpl in H.
    destruct (stop (polls (env s))).
    { injection H as <- <-. split; [reflexivity|]. intros ? ? [= <- <-].
      exists []. rewrite app_nil_r. simpl. split; [done|]. split; lia. }
    destruct outcome as [resp|e].
    2:{ injection H as <- <-. split; [reflexivity|]. by intros ? ? [=]. }
    destruct (dict_get cid dict) as [c|] eqn:Hget.
    2:{ injection H as <- <-. split; [reflexivity|]. by intros ? ? [=]. }
    unfold bind at 1, lift at 1, modify in H. simpl in H.
    unfold bind at 1, lift at 1, log_callback, modify in H. simpl in H.
    destruct (config.MAX_VALID_PER_KEYWORD <=? n + 1) eqn:Hcap.
    + injection H as <- <-. split; [reflexivity|]. intros ? ? [= <- <-].
      exists [make_row c kw]. simpl. split; [done|]. split; lia.
    + apply Z.leb_gt in Hcap. apply IH in H as [Hmgr Hrows]. split; [exact Hmgr|].
      intros rows' n' Hr. destruct (Hrows rows' n' Hr) as (extra & -> & -> & Hle).
      exists (make_row c kw :: extra). rewrite <- app_assoc. simpl length.
      split; [done|]. split; lia.
Qed.

Lemma build_rows_count yt stop (kw : string) (candidates : list Candidate) (n : Z)
    (s s' : State) r :
  build_rows yt stop kw candidates n s = (r, s') ->
  pool_kept s s'
  /\ forall rows n', r = Ok (rows, n') ->
       n' = n + Z.of_nat (length rows)
       /\ (n < config.MAX_VALID_PER_KEYWORD -> n' <= config.MAX_VALID_PER_KEYWORD).
Proof.
  unfold build_rows. intros H. destruct candidates as [|c0 cands].
  { injection H as <- <-. split; [apply pool_kept_refl|]. intros ? ? [= <- <-]. simpl. lia. }
  apply bind_inv in H as [(s0 & s1 & [= <- <-] & H)|(? & [=] & _)].
  apply bind_inv in H as [(futures & s2 & Hpool & H)|(e & Hpool & ->)].
  2:{ apply run_pool_pool_kept in Hpool. split; [exact Hpool|]. by intros ? ? [=]. }
  apply run_pool_pool_kept in Hpool.
  apply collect_rows_count in H as [Hmgr Hrows]. split.
  { eapply pool_kept_trans; [exact Hpool|]. unfold pool_kept. by rewrite Hmgr. }
  intros rows n' Hr. destruct (Hrows rows n' Hr) as (extra & -> & -> & Hle). by auto.
Qed.

Lemma set_entries_twice (kw : string) (t1 t2 : option string) (n1 n2 : Z) (c : Checkpoint) :
  set_count kw n2 (set_position kw t2 (set_count kw n1 (set_position kw t1 c)))
  = set_count kw n2 (set_position kw t2 c).
Proof. unfold set_count, set_position. simpl. by rewrite !insert_insert_eq. Qed.

Lemma stored_tracked (kw : string) (cnt : Z) (s s' : State) :
  same_store (env s) (env s') -> tracked kw cnt s s'.
Proof. intros (_ & Hw & Hfile & Hck). left. unfold rows_of. by rewrite Hw, Hfile, Hck. Qed.

Lemma tracked_after (kw : string) (cnt : Z) (s s1 s' : State) :
  same_store (env s) (env s1) -> tracked kw cnt s1 s' -> tracked kw cnt s s'.
Proof.
  intros (_ & Hw & Hfile & Hck). unfold tracked, rows_of. by rewrite Hw, Hfile, Hck.
Qed.

Lemma tracked_page (kw : string) (cnt : Z) (cs : list Candidate) (next : option string)
    (s2 s6 s7 s' : State) :
  rows_of (env s6) = (rows_of (env s2) ++ rows_for kw cs)%list ->
  checkpoint (env s6)
  = set_count kw (cnt + Z.of_nat (length cs)) (set_position kw next (checkpoint (env s2))) ->
  checkpoint_file (env s6) = Holds (checkpoint (env s6)) ->
  cnt < config.MAX_VALID_PER_KEYWORD ->
  cnt + Z.of_nat (length cs) <= config.MAX_VALID_PER_KEYWORD ->
  same_store (env s6) (env s7) ->
  tracked kw (cnt + Z.of_nat (length cs)) s7 s' ->
  tracked kw cnt s2 s'.
Proof.
  intros Hrows Hck Hfile Hlt Hle (_ & Hw7 & Hfile7 & Hck7) Htail. right.
  assert (Hrows7 : rows_of (env s7) = rows_of (env s6)) by (unfold rows_of; by rewrite Hw7).
  destruct Htail as [(Hr & Hc & Hf)|(cs2 & tok2 & Hr & Hc & Hf & Hlt2 & Hle2)].
  - exists cs, next. rewrite Hr, Hrows7, Hc, Hck7, Hf, Hfile7, Hfile, Hck. by auto.
  - exists (cs ++ cs2)%list, tok2. split.
    { rewrite Hr, Hrows7, Hrows. unfold rows_for. by rewrite map_app, app_assoc. }
    split.
    { rewrite Hc, Hck7, Hck, set_entries_twice, length_app, Nat2Z.inj_add. f_equal. lia. }
    split; [exact Hf|]. split; [exact Hlt|]. rewrite length_app, Nat2Z.inj_add. lia.
Qed.

Ltac by_pool :=
  first [ eapply lift_pool_kept; eassumption
        | eapply api_request_pool_kept; eassumption ].

Ltac track_step s1 :=
  match goal with
  | |- pool_kept ?s ?s' /\ tracked ?kw ?cnt ?s ?s' =>
      let Hp := fresh "Hp" in
      let Hf := fresh "Hf" in
      assert (Hp : pool_kept s s1) by by_pool;
      assert (Hf : frame (env s) (env s1)) by by_frame;
      apply frame_same_store in Hf;
      cut (pool_kept s1 s' /\ tracked kw cnt s1 s');
      [ intros [? ?]; split;
        [ eapply pool_kept_trans; [exact Hp|eassumption]
        | eapply tracked_after; [exact Hf|eassumption] ]
      | clear Hp Hf ]
  end.

Ltac track_done :=
  split; [by_pool|apply stored_tracked, frame_same_store; by_frame].

Lemma process_pages_tracks yt stop (params : KeywordParams) :
  forall (n : nat) (tok : option string) (cnt : Z) (s s' : State) (r : result unit),
    process_pages yt stop n params tok cnt s = (r, s') ->
    pool_kept s s' /\ tracked (keyword params) cnt s s'.
Proof.
  induction n as [|n IH]; intros tok cnt s s' r H; simpl in H.
  { injection H as <- <-. split; [apply pool_kept_refl|]. apply stored_tracked. by repeat split. }
  destruct (negb (cnt <? config.MAX_VALID_PER_KEYWORD)) eqn:Hcnt.
  { injection H as <- <-. split; [apply pool_kept_refl|]. apply stored_tracked. by repeat split. }
  apply negb_false_iff, Z.ltb_lt in Hcnt.
  apply bind_inv in H as [(stopb & s0 & Hstop & H)|(e & Hstop & ->)]; [|track_done].
  track_step s0. clear Hstop s.
  destruct stopb; [track_done|].
  apply bind_inv in H as [(sr & s1 & Hreq & H)|(e & Hreq & ->)]; [|track_done].
  track_step s1. clear Hreq s0.
  destruct (channel_ids_of (sr_items sr)) as [[|cid ids]|e].
  { track_done. }
  2:{ injection H as <- <-. split; [apply pool_kept_refl|]. apply stored_tracked. by repeat split. }
  apply bind_inv in H as [(dr & s2 & Hreq & H)|(e & Hreq & ->)]; [|track_done].
  track_step s2. clear Hreq s1.
  apply bind_inv in H as [(s2' & s2'' & [= <- <-] & H)|(? & [=] & _)].
  destruct (select_candidates params (existing_channels (env s2)) (dr_items dr) [])
    as [cands|e] eqn:Hsel.
  2:{ injection H as <- <-. split; [apply pool_kept_refl|]. apply stored_tracked. by repeat split. }
  apply select_candidates_fresh in Hsel; [|constructor].
  apply bind_inv in H as [([rows added] & s3 & Hb & H)|(e & Hb & ->)].
  2:{ pose proof Hb as Hb'. apply build_rows_count in Hb' as [Hp _].
      apply build_rows_spec in Hb as (cs & _ & _ & _ & Hst & _); [|exact Hsel].
      split; [exact Hp|by apply stored_tracked]. }
  pose proof Hb as Hb'. apply build_rows_count in Hb' as [Hp3 Hcount].
  destruct (Hcount _ _ eq_refl) as [Hadded Hcap]. specialize (Hcap Hcnt).
  apply build_rows_spec in Hb as (cs & _ & _ & _ & Hst & Hrows); [|exact Hsel].
  specialize (Hrows _ _ eq_refl). subst rows. simpl fst in H; simpl snd in H.
  assert (Hlen : length (rows_for (keyword params) cs) = length cs)
    by (unfold rows_for; apply length_map).
  rewrite Hlen in Hadded. clear Hlen Hcount.
  apply bind_inv in H as [(u & s4 & Happ & H)|(e & Happ & ->)].
  2:{ by apply append_block_run in Happ as [[=] _]. }
  assert (Hp4 : pool_kept s3 s4).
  { destruct (rows_for (keyword params) cs).
    - injection Happ as _ <-. apply pool_kept_refl.
    - by eapply lift_pool_kept. }
  apply append_block_run in Happ as (_ & Hrows4 & Hf4 & Hfile4 & Hex4 & Hck4).
  apply bind_inv in H as [(u' & s5 & Hmod & H)|(e & Hmod & ->)].
  2:{ by apply lift_modify_run in Hmod as [[=] _]. }
  apply lift_modify_run in Hmod as [_ ->].
  apply bind_inv in H as [(s5' & s5'' & [= <- <-] & H)|(? & [=] & _)].
  apply bind_inv in H as [(u'' & s6 & Hsave & H)|(e & Hsave & ->)].
  2:{ by apply lift_modify_run in Hsave as [[=] _]. }
  apply lift_modify_run in Hsave as [_ ->].
  destruct Hst as (Hf3 & Hw3 & Hfile3 & Hck3).
  set (s6 := with_env (with_env s4 _) _) in *.
  assert (Hp6 : pool_kept s2 s6).
  { eapply pool_kept_trans; [exact Hp3|]. eapply pool_kept_trans; [exact Hp4|].
    subst s6. by split. }
  assert (Hrows6 : rows_of (env s6)
                   = (rows_of (env s2) ++ rows_for (keyword params) cs)%list).
  { subst s6. unfold rows_of in *. simpl. by rewrite Hrows4, Hw3. }
  assert (Hck6 : checkpoint (env s6)
                 = set_count (keyword params) (cnt + Z.of_nat (length cs))
                     (set_position (keyword params) (nextPageToken sr) (checkpoint (env s2)))).
  { subst s6. simpl. by rewrite Hck4, Hck3, Hadded. }
  assert (Hfile6 : checkpoint_file (env s6) = Holds (checkpoint (env s6)))
    by (subst s6; reflexivity).
  clearbody s6. subst added.
  destruct (negb (truthy (nextPageToken sr))).
  - split; [eapply pool_kept_trans; [exact Hp6|by_pool]|].
    eapply (tracked_page _ _ cs _ s2 s6 s6); eauto.
    + by repeat split.
    + apply stored_tracked, frame_same_store. by_frame.
  - apply bind_inv in H as [(u3 & s7 & Hsl & H)|(e & Hsl & ->)].
    + apply IH in H as [Hp7 Ht7].
      split; [eapply pool_kept_trans; [exact Hp6|]; eapply pool_kept_trans; [by_pool|exact Hp7]|].
      eapply (tracked_page _ _ cs _ s2 s6 s7); eauto.
      apply frame_same_store. by_frame.
    + split; [eapply pool_kept_trans; [exact Hp6|by_pool]|].
      eapply (tracked_page _ _ cs _ s2 s6 s6); eauto.
      * by repeat split.
      * apply stored_tracked, frame_same_store. by_frame.
Qed.

Lemma saved_count_set (kw : string) (n : Z) (c : Checkpoint) :
  saved_count (set_count kw n c) kw = n.
Proof. unfold saved_count, set_count. simpl. by rewrite lookup_insert_eq. Qed.

Lemma process_keyword_tracks yt stop (params : KeywordParams) (s s' : State) (r : result PyVal) :
  process_keyword yt stop params s = (r, s') ->
  pool_kept s s'
  /\ tracked (keyword params) (saved_count (checkpoint (env s)) (keyword params)) s s'.
Proof.
  unfold process_keyword. intros H.
  apply bind_inv in H as [(s0 & s1 & [= <- <-] & H)|(? & [=] & _)].
  apply bind_inv in H as [(u & s2 & Hp & H)|(e & Hp & ->)].
  - injection H as <- <-. by apply process_pages_tracks in Hp.
  - by apply process_pages_tracks in Hp.
Qed.

(** X8. However [process_keyword] ends, the rows it has appended are rows
    of its keyword, and the count that the checkpoint records for the
    keyword is the count it started from plus the number of those rows; a
    count that started at or below the cap never passes the cap. *)
Theorem process_keyword_count_tracks_rows yt stop (params : KeywordParams) (s : State) :
  exists cs : list Candidate,
    rows_of (env (snd (process_keyword yt stop params s)))
    = (rows_of (env s) ++ rows_for (keyword params) cs)%list
    /\ saved_count (checkpoint (env (snd (process_keyword yt stop params s)))) (keyword params)
       = saved_count (checkpoint (env s)) (keyword params) + Z.of_nat (length cs)
    /\ saved_count (checkpoint (env (snd (process_keyword yt stop params s)))) (keyword params)
       <= Z.max config.MAX_VALID_PER_KEYWORD (saved_count (checkpoint (env s)) (keyword params)).
Proof.
  destruct (process_keyword yt stop params s) as [r s'] eqn:Hrun. simpl.
  apply process_keyword_tracks in Hrun
    as [_ [(Hr & Hc & _)|(cs & tok & Hr & Hc & _ & Hlt & Hle)]].
  - exists []. rewrite Hr, Hc, app_nil_r. simpl. split; [done|]. split; lia.
  - exists cs. rewrite Hr, Hc, saved_count_set. split; [done|]. split; lia.
Qed.

(** X9. However [process_keyword] ends, it has changed nothing in the
    checkpoint but the two entries of its keyword: the checkpoint is what
    it was, or it is the old one with the cursor and the count of the
    keyword replaced. Whenever [process_keyword] returns normally, no
    changed checkpoint is left unsaved: either the checkpoint and its file
    are what they were, or the file holds the checkpoint. *)
Theorem process_keyword_saves_its_entries yt stop (params : KeywordParams) (s : State) :
  (checkpoint (env (snd (process_keyword yt stop params s))) = checkpoint (env s)
   \/ exists (tok : option string) (n : Z),
        checkpoint (env (snd (process_keyword yt stop params s)))
        = set_count (keyword params) n (set_position (keyword params) tok (checkpoint (env s))))
  /\ (forall v, fst (process_keyword yt stop params s) = Ok v ->
        (checkpoint (env (snd (process_keyword yt stop params s))) = checkpoint (env s)
         /\ checkpoint_file (env (snd (process_keyword yt stop params s)))
            = checkpoint_file (env s))
        \/ checkpoint_file (env (snd (process_keyword yt stop params s)))
           = Holds (checkpoint (env (snd (process_keyword yt stop params s))))).
Proof.
  destruct (process_keyword yt stop params s) as [r s'] eqn:Hrun. simpl.
  apply process_keyword_tracks in Hrun
    as [_ [(_ & Hc & Hf)|(cs & tok & _ & Hc & Hf & _)]].
  - split; [by left|]. intros v _. by left.
  - split; [right; eauto|]. intros v _. by right.
Qed.

Lemma process_keyword_saves_its_entries_witness :
  let s := state_of ["K1"] 0 quiet_env in
  let s' := snd (process_keyword same_channel never_stop cats s) in
  checkpoint_file (env s') = Holds (checkpoint (env s'))
  /\ saved_count (checkpoint (env s')) "cats" = 1.
Proof.
  intros s s'.
  destruct (process_keyword_saves_its_entries same_channel never_stop cats s) as [_ Hsaved].
  destruct (Hsaved PyNone eq_refl) as [[Hsame _]|Hfile].
  - exfalso. vm_compute in Hsame. discriminate Hsame.
  - split; [exact Hfile|]. vm_compute. reflexivity.
Defined.

(** X10. [process_keyword] keeps the key pool and, when the cursor of the
    manager is inside the pool, leaves it inside, whatever the remote
    service answers. *)
Theorem process_keyword_keeps_manager_valid yt stop (params : KeywordParams) (s : State) :
  valid_manager (yt_manager s) ->
  api_keys (yt_manager (snd (process_keyword yt stop params s))) = api_keys (yt_manager s)
  /\ valid_manager (yt_manager (snd (process_keyword yt stop params s))).
Proof.
  intros Hs. destruct (process_keyword yt stop params s) as [r s'] eqn:Hrun. simpl.
  apply process_keyword_tracks in Hrun as [[Hk Hv] _]. by auto.
Qed.

Lemma process_keyword_keeps_manager_valid_witness :
  let s := state_of ["K1"; "K2"] 1 quiet_env in
  api_keys (yt_manager (snd (process_keyword same_channel never_stop cats s))) = ["K1"; "K2"]
  /\ valid_manager (yt_manager (snd (process_keyword same_channel never_stop cats s))).
Proof.
  intros s. apply (process_keyword_keeps_manager_valid same_channel never_stop cats s).
  unfold valid_manager. simpl. lia.
Defined.

(** ** The orchestrator *)

Lemma append_only_grows (kw : string) (e0 e e' : Env) :
  append_only e0 e -> grows kw e e' -> append_only e0 e'.
Proof.
  intros [(app & Hrows) Hsub] (_ & (cs & Hr & _) & Hsub' & _). split.
  - exists (app ++ rows_for kw cs)%list. by rewrite Hr, Hrows, app_assoc.
  - by etrans.
Qed.

(** X11. The keyword loop is append-only: whatever the keywords, the
    answers of the remote service and the stop signal, and however the loop
    ends, the rows that the sheet held are still there, in place, followed
    by the new ones, and no URL has left the dedup set. *)
Theorem keyword_loop_append_only yt stop (params : ScanParams) (kws : list string)
    (total : Z) (s : State) :
  append_only (env s) (env (snd (keyword_loop yt stop params kws total s))).
Proof.
  destruct (keyword_loop yt stop params kws total s) as [r s'] eqn:Hrun. simpl.
  eapply (keyword_loop_invariant yt stop (append_only (env s))); [| | |exact Hrun|].
  - intros e e' Hf He. eapply append_only_grows; [exact He|]. by apply (frame_grows "").
  - intros kw e e' He _ Hg. by eapply append_only_grows.
  - intros e He. exact He.
  - split; [exists []; by rewrite app_nil_r|done].
Qed.

(** X12. Whenever [run_scraper] returns without raising, the last line it
    logs is the summary, and the total in that summary is 0: a run in which
    a keyword was processed does not get that far. *)
Theorem run_scraper_ok_reports_zero yt stop (params : ScanParams) (settings : Settings)
    (s s' : State) :
  run_scraper yt stop params settings s = (Ok tt, s') ->
  exists earlier, log (env s') = (earlier ++ [summary 0])%list.
Proof.
  unfold run_scraper. intros H.
  apply bind_inv in H as [(u & s0 & _ & H)|(e & _ & [=])].
  destruct (new_manager (youtube_api_keys settings)) as [mgr|e]; [|discriminate H].
  do 8 (apply bind_inv in H as [(? & ? & _ & H)|(? & _ & [=])]).
  apply bind_inv in H as [(total & s9 & Hloop & H)|(e & _ & [=])].
  apply keyword_loop_never_accumulates in Hloop as ->.
  apply lift_modify_run in H as [_ ->]. simpl. eauto.
Qed.

Lemma run_scraper_ok_reports_zero_witness :
  exists earlier,
    log (env (snd (run_scraper no_hits never_stop cats_scan sample_settings (boot capped_env))))
    = (earlier ++ [summary 0])%list.
Proof.
  destruct (run_scraper no_hits never_stop cats_scan sample_settings (boot capped_env))
    as [r s'] eqn:Hrun.
  assert (Hr : r = Ok tt).
  { change r with (fst (r, s')). rewrite <- Hrun. vm_compute. reflexivity. }
  subst r. exact (run_scraper_ok_reports_zero _ _ _ _ _ _ Hrun).
Defined.

Lemma run_scraper_without_keys yt stop (params : ScanParams) (settings : Settings)
    (s : State) :
  youtube_api_keys settings = [] ->
  run_scraper yt stop params settings s
  = (Raise no_keys_error, with_env s (snd (log_callback "Scraper starting..." (env s)))).
Proof. intros Hkeys. unfold run_scraper, bind. simpl. rewrite Hkeys. reflexivity. Qed.

Lemma setup_worksheet_fault (settings : Settings) (e : Env) (err : exn) :
  sheets_fault e = Some err ->
  exists e', setup_worksheet settings e = (Raise err, e')
             /\ frame e e' /\ api_calls e' = api_calls e.
Proof.
  intros Hfault. unfold setup_worksheet, bind, get. rewrite Hfault.
  destruct err; simpl; eexists; (split; [reflexivity|]); by repeat split.
Qed.

Lemma run_scraper_sheets_fault yt stop (params : ScanParams) (settings : Settings)
    (s : State) (err : exn) :
  youtube_api_keys settings <> [] ->
  sheets_fault (env s) = Some err ->
  fst (run_scraper yt stop params settings s) = Raise err
  /\ clients (snd (run_scraper yt stop params settings s)) = clients s
  /\ api_calls (env (snd (run_scraper yt stop params settings s))) = api_calls (env s)
  /\ worksheet (env (snd (run_scraper yt stop params settings s))) = worksheet (env s)
  /\ checkpoint_file (env (snd (run_scraper yt stop params settings s)))
     = checkpoint_file (env s).
Proof.
  intros Hkeys Hfault.
  destruct (run_scraper yt stop params settings s) as [r s'] eqn:Hrun. simpl.
  unfold run_scraper in Hrun.
  apply bind_inv in Hrun as [(u & s0 & Hlog & H)|(e & Hlog & _)].
  2:{ by apply lift_modify_run in Hlog as [[=] _]. }
  apply lift_modify_run in Hlog as [_ ->].
  destruct (youtube_api_keys settings) as [|k ks]; [done|]. simpl in H.
  apply bind_inv in H as [(u0 & s1 & [= <- <-] & H)|(e & [=] & _)].
  apply bind_inv in H as [(u1 & s2 & Hs & H)|(e & Hs & ->)];
    apply lift_inv in Hs as (e2 & Hs & ->);
    match type of Hs with
    | setup_worksheet _ ?e0 = _ =>
        destruct (setup_worksheet_fault settings e0 err Hfault)
          as (e' & Hsetup & (_ & Hw & Hfile & _) & Hcalls)
    end;
    rewrite Hsetup in Hs.
  { discriminate Hs. }
  injection Hs as <- <-. simpl. by auto.
Qed.

(** X13. Configuration errors end [run_scraper] before any request to the
    remote service. Without API keys it logs "Scraper starting...", raises
    ValueError and does nothing else. With keys, when connecting to the
    spreadsheet raises, it raises the same error: no client is built, no
    request is made, and the sheet and the checkpoint file are as they
    were. *)
Theorem run_scraper_configuration_errors yt stop (params : ScanParams) (settings : Settings)
    (s : State) :
  (youtube_api_keys settings = [] ->
     run_scraper yt stop params settings s
     = (Raise no_keys_error, with_env s (snd (log_callback "Scraper starting..." (env s)))))
  /\ (youtube_api_keys settings <> [] ->
      forall err, sheets_fault (env s) = Some err ->
        fst (run_scraper yt stop params settings s) = Raise err
        /\ clients (snd (run_scraper yt stop params settings s)) = clients s
        /\ api_calls (env (snd (run_scraper yt stop params settings s))) = api_calls (env s)
        /\ worksheet (env (snd (run_scraper yt stop params settings s))) = worksheet (env s)
        /\ checkpoint_file (env (snd (run_scraper yt stop params settings s)))
           = checkpoint_file (env s)).
Proof.
  split.
  - apply run_scraper_without_keys.
  - intros Hkeys err Hfault. by apply run_scraper_sheets_fault.
Qed.

Lemma run_scraper_configuration_errors_witness :
  let keyless := {| youtube_api_keys := []; sheet_id := "sheet"; sheet_name := "Sheet1";
                    service_account_file := "sa.json" |} in
  let s := boot {| log := []; slept := []; api_calls := 0; polls := 0;
                   sheets_fault := Some (GSpreadException "APIError 403");
                   worksheet := Some [header]; checkpoint_file := Missing;
                   existing_channels := ∅; checkpoint := empty_checkpoint |} in
  fst (run_scraper no_hits never_stop cats_scan keyless (boot quiet_env)) = Raise no_keys_error
  /\ log (env (snd (run_scraper no_hits never_stop cats_scan keyless (boot quiet_env))))
     = ["Scraper starting..."]
  /\ fst (run_scraper no_hits never_stop cats_scan sample_settings s)
     = Raise (GSpreadException "APIError 403")
  /\ clients (snd (run_scraper no_hits never_stop cats_scan sample_settings s)) = [].
Proof.
  intros keyless s.
  destruct (run_scraper_configuration_errors no_hits never_stop cats_scan keyless
              (boot quiet_env)) as [Hnone _].
  rewrite (Hnone eq_refl).
  destruct (run_scraper_configuration_errors no_hits never_stop cats_scan sample_settings s)
    as [_ Hfault].
  destruct (Hfault ltac:(discriminate) (GSpreadException "APIError 403") eq_refl)
    as (H1 & H2 & _).
  repeat split; assumption.
Defined.

(** ** Settings and the worker *)

Lemma load_settings_reads_only (d d' : Desk) (r : result Settings) :
  load_settings d = (r, d') -> d' = d.
Proof.
  unfold load_settings, bind, get_settings_path, get.
  destruct (settings_dir_fault d); [by intros [= _ <-]|].
  destruct (settings_file d) as [|st|e]; try by intros [= _ <-].
  destruct (settings_catches e); by intros [= _ <-].
Qed.

Lemma worker_body_cases yt stop (params : ScanParams) (a a' : App) (r : result unit) :
  (let* app_settings := on_desk load_settings in
   if negb (nonempty_list (youtube_api_keys app_settings)) then
     emit (ErrorSignal no_keys_message)
   else if negb (nonempty_string (sheet_id app_settings)
                 && nonempty_string (service_account_file app_settings)) then
     emit (ErrorSignal no_sheet_message)
   else
     on_scraper (run_scraper yt stop params app_settings)) a = (r, a') ->
  desk a' = desk a
  \/ (r = Ok tt /\ scraping a' = scraping a
      /\ exists msg, desk a' = signalled [ErrorSignal msg] (desk a)).
Proof.
  intros H. apply bind_inv in H as [(st & a1 & Hload & H)|(e & Hload & ->)];
    unfold on_desk in Hload;
    destruct (load_settings (desk a)) as [r0 d1] eqn:Hl;
    apply load_settings_reads_only in Hl as ->; injection Hload as _ <-.
  2:{ by left. }
  destruct (negb (nonempty_list (youtube_api_keys st))).
  { injection H as <- <-. right. simpl. split; [done|]. split; [done|]. by eexists. }
  destruct (negb (nonempty_string (sheet_id st) && nonempty_string (service_account_file st))).
  { injection H as <- <-. right. simpl. split; [done|]. split; [done|]. by eexists. }
  unfold on_scraper in H. simpl in H.
  destruct (run_scraper yt stop params st (scraping a)) as [r1 s1].
  injection H as <- <-. by left.
Qed.

(** X15. [ScraperWorker.run] never raises and always ends by emitting
    [finished], exactly once; before it, it has emitted at most one [error]
    signal. It never writes the settings. *)
Theorem worker_run_always_finishes yt stop (params : ScanParams) (a : App) :
  fst (worker_run yt stop params a) = Ok tt
  /\ exists errs,
       desk (snd (worker_run yt stop params a))
       = signalled (errs ++ [FinishedSignal]) (desk a)
       /\ (errs = [] \/ exists msg, errs = [ErrorSignal msg]).
Proof.
  unfold worker_run, try_finally, try_except.
  match goal with
  | |- context [match ?b a with _ => _ end] => destruct (b a) as [r a1] eqn:Hbody
  end.
  apply worker_body_cases in Hbody as [Hd|(-> & _ & msg & Hd)].
  - destruct r as [[]|e]; simpl.
    + split; [done|]. exists []. rewrite Hd. by auto.
    + split; [done|]. eexists [ErrorSignal _]. rewrite Hd. unfold signalled. simpl.
      rewrite <- app_assoc. eauto.
  - simpl. split; [done|]. exists [ErrorSignal msg]. rewrite Hd. unfold signalled. simpl.
    rewrite <- app_assoc. eauto.
Qed.

(** X16. When the settings that [load_settings] returns have no API key,
    or lack the sheet id or the service account file, the worker does not
    start the scraper: the state of the scraper is untouched, and the
    signals are one [error], about the keys if there is none, followed by
    [finished]. *)
Theorem worker_run_refuses_incomplete_settings yt stop (params : ScanParams) (a : App)
    (st : Settings) :
  fst (load_settings (desk a)) = Ok st ->
  youtube_api_keys st = [] \/ sheet_id st = "" \/ service_account_file st = "" ->
  exists msg,
    worker_run yt stop params a
    = (Ok tt, {| desk := signalled [ErrorSignal msg; FinishedSignal] (desk a);
                 scraping := scraping a |})
    /\ (msg = no_keys_message \/ msg = no_sheet_message)
    /\ (youtube_api_keys st = [] -> msg = no_keys_message).
Proof.
  intros Hload Hbad.
  destruct (load_settings (desk a)) as [r d1] eqn:Hl. simpl in Hload. subst r.
  pose proof (load_settings_reads_only _ _ _ Hl) as ->.
  unfold worker_run, try_finally, try_except, bind at 1, on_desk at 1. rewrite Hl.
  destruct (youtube_api_keys st) as [|k ks] eqn:Hkeys; simpl.
  { exists no_keys_message. unfold signalled. simpl. rewrite <- app_assoc. by auto. }
  assert (Hsheet : nonempty_string (sheet_id st) && nonempty_string (service_account_file st)
                   = false).
  { destruct Hbad as [?|[->| ->]]; [done|done|]. by rewrite andb_false_r. }
  rewrite Hsheet. simpl.
  exists no_sheet_message. unfold signalled. simpl. rewrite <- app_assoc.
  split; [done|]. split; [by right|done].
Qed.

Lemma worker_run_refuses_incomplete_settings_witness :
  let a := {| desk := bare_desk; scraping := boot quiet_env |} in
  worker_run no_hits never_stop cats_scan a
  = (Ok tt, {| desk := signalled [ErrorSignal no_keys_message; FinishedSignal] bare_desk;
               scraping := boot quiet_env |}).
Proof.
  intros a.
  destruct (worker_run_refuses_incomplete_settings no_hits never_stop cats_scan a
              default_settings) as (msg & Hrun & _ & Hmsg); [reflexivity|by left|].
  rewrite Hrun, (Hmsg eq_refl). reflexivity.
Defined.

(** ** The index of a page's candidates *)

Lemma dict_get_set {V} (k k' : string) (v : V) (d : list (string * V)) :
  dict_get k' (dict_set k v d) = if bool_decide (k = k') then Some v else dict_get k' d.
Proof.
  induction d as [|[k0 v0] d IH]; simpl.
  - destruct (bool_decide (k = k')); reflexivity.
  - destruct (bool_decide (k0 = k)) eqn:Hk0; simpl.
    + apply bool_decide_eq_true in Hk0. subst k0.
      destruct (bool_decide (k = k')); reflexivity.
    + apply bool_decide_eq_false in Hk0.
      destruct (bool_decide (k0 = k')) eqn:Hk'; [|exact IH].
      apply bool_decide_eq_true in Hk'. subst k0.
      destruct (bool_decide (k = k')) eqn:Hkk; [|reflexivity].
      apply bool_decide_eq_true in Hkk. congruence.
Qed.

Lemma index_fold_get (k : string) (cs : list Candidate) : forall d : list (string * Candidate),
  dict_get k (fold_left (fun d c => dict_set (cand_id c) c d) cs d)
  = match last (filter (fun c => cand_id c = k) cs) with
    | Some c => Some c
    | None => dict_get k d
    end.
Proof.
  induction cs as [|c cs IH]; intros d; simpl; [reflexivity|].
  rewrite IH, dict_get_set, filter_cons.
  destruct (decide (cand_id c = k)) as [Hc|Hc].
  - rewrite bool_decide_eq_true_2 by exact Hc. rewrite last_cons.
    by destruct (last (filter (fun c0 => cand_id c0 = k) cs)).
  - by rewrite bool_decide_eq_false_2 by exact Hc.
Qed.

Lemma index_fold_keys (cs : list Candidate) : forall (d : list (string * Candidate)) k,
  k ∈ map fst (fold_left (fun d c => dict_set (cand_id c) c d) cs d)
  <-> k ∈ map fst d \/ k ∈ map cand_id cs.
Proof.
  induction cs as [|c cs IH]; intros d k; simpl.
  - split; [by left|]. intros [?|Hn]; [done|by apply elem_of_nil in Hn].
  - rewrite IH, dict_set_keys, elem_of_cons. tauto.
Qed.

Lemma index_fold_NoDup (cs : list Candidate) : forall d : list (string * Candidate),
  NoDup (map fst d) -> NoDup (map fst (fold_left (fun d c => dict_set (cand_id c) c d) cs d)).
Proof.
  induction cs as [|c cs IH]; intros d Hd; simpl; [exact Hd|]. by apply IH, dict_set_NoDup.
Qed.

(** X17. [id_to_candidate] has exactly the ids of the candidates as keys,
    each once, and looking an id up gives the last candidate of the page
    with that id: channels repeated in a response collapse to one entry. *)
Theorem index_by_id_last_wins (cs : list Candidate) :
  NoDup (map fst (index_by_id cs))
  /\ (forall k, k ∈ map fst (index_by_id cs) <-> k ∈ map cand_id cs)
  /\ (forall k, dict_get k (index_by_id cs) = last (filter (fun c => cand_id c = k) cs)).
Proof.
  unfold index_by_id. split; [apply index_fold_NoDup; constructor|]. split.
  - intros k. rewrite index_fold_keys. simpl. split; [|by right].
    intros [Hn|?]; [by apply elem_of_nil in Hn|done].
  - intros k. rewrite index_fold_get. simpl.
    by destruct (last (filter (fun c => cand_id c = k) cs)).
Qed.

Lemma index_by_id_last_wins_witness :
  map fst (index_by_id [first_entry; second_entry]) = ["UC1"]
  /\ dict_get "UC1" (index_by_id [first_entry; second_entry]) = Some second_entry.
Proof.
  split; [reflexivity|].
  destruct (index_by_id_last_wins [first_entry; second_entry]) as (_ & _ & Hget).
  rewrite (Hget "UC1"). reflexivity.
Defined.

(** ** A scan that has nothing left to do *)

Lemma idle_refl (s : State) : idle s s.
Proof. repeat split. Qed.

Lemma idle_trans (s1 s2 s3 : State) : idle s1 s2 -> idle s2 s3 -> idle s1 s3.
Proof.
  intros (H1 & H2 & H3 & H4 & H5) (H1' & H2' & H3' & H4' & H5').
  split; [congruence|]. split; [congruence|]. split; [congruence|]. split; [congruence|].
  by eapply frame_trans.
Qed.

Lemma idle_poll stop (s s' : State) (r : result bool) :
  lift (should_stop stop) s = (r, s') -> idle s s'.
Proof. unfold lift, should_stop. intros [= _ <-]. repeat split. Qed.

Lemma idle_log (line : string) (s s' : State) (r : result unit) :
  lift (log_callback line) s = (r, s') -> r = Ok tt /\ idle s s'.
Proof. unfold lift, log_callback, modify. intros [= <- <-]. repeat split. Qed.

(** X18. A scan whose keywords have all reached the per-keyword cap costs
    nothing: whatever the stop signal, the keyword loop returns the total
    it was given, asks nothing of the remote service, builds no client,
    never pauses, and leaves the sheet, the dedup set, the checkpoint and
    its file as they were. *)
Theorem keyword_loop_all_capped yt stop (params : ScanParams) (kws : list string)
    (total : Z) (s : State) :
  Forall (fun kw => config.MAX_VALID_PER_KEYWORD <= saved_count (checkpoint (env s)) kw) kws ->
  fst (keyword_loop yt stop params kws total s) = Ok total
  /\ idle s (snd (keyword_loop yt stop params kws total s)).
Proof.
  revert s. induction kws as [|kw kws IH]; intros s Hall.
  { split; [reflexivity|apply idle_refl]. }
  apply Forall_cons in Hall as [Hkw Hall].
  destruct (keyword_loop yt stop params (kw :: kws) total s) as [r s'] eqn:Hrun.
  simpl in Hrun. simpl fst. simpl snd.
  apply bind_inv in Hrun as [(stopb & s0 & Hstop & H)|(e & Hstop & _)].
  2:{ unfold lift, should_stop in Hstop. discriminate Hstop. }
  apply idle_poll in Hstop. destruct stopb.
  { apply bind_inv in H as [(u & s1 & Hlog & H)|(e & Hlog & _)];
      apply idle_log in Hlog as [Hr Hidle]; [|discriminate Hr].
    injection H as <- <-. split; [reflexivity|by eapply idle_trans]. }
  apply bind_inv in H as [(s0' & s0'' & [= <- <-] & H)|(? & [=] & _)].
  assert (Hck : checkpoint (env s0) = checkpoint (env s))
    by (destruct Hstop as (_ & _ & _ & _ & _ & _ & _ & _ & Hck); exact Hck).
  rewrite Hck in H. apply Z.leb_le in Hkw. rewrite Hkw in H.
  apply bind_inv in H as [(u & s1 & Hlog & H)|(e & Hlog & _)];
    apply idle_log in Hlog as [Hr Hidle]; [|discriminate Hr].
  assert (Hck1 : checkpoint (env s1) = checkpoint (env s)).
  { destruct Hidle as (_ & _ & _ & _ & _ & _ & _ & _ & Hck1). congruence. }
  destruct (IH s1) as [Hfst Hsnd]; [by rewrite Hck1|].
  rewrite H in Hfst, Hsnd. simpl in *. split; [exact Hfst|].
  eapply idle_trans; [exact Hstop|]. by eapply idle_trans.
Qed.

Lemma keyword_loop_all_capped_witness :
  let s := state_of ["K1"] 0 capped_env in
  fst (keyword_loop same_channel never_stop cats_scan ["cats"; "cats"] 0 s) = Ok 0
  /\ clients (snd (keyword_loop same_channel never_stop cats_scan ["cats"; "cats"] 0 s)) = [].
Proof.
  intros s.
  destruct (keyword_loop_all_capped same_channel never_stop cats_scan ["cats"; "cats"] 0 s)
    as (Hok & _ & Hclients & _).
  - repeat constructor; vm_compute; discriminate.
  - split; [exact Hok|exact Hclients].
Defined.
